(** * Jingler: the jingle scheduler and the playback coordinator

    A shallow embedding of [jingle_scheduler.py]: the class
    [SchedulerState] (fixed clock times and N-per-hour scheduling) and the
    playback part of [JingleSchedulerApp] (cursor advance, play, next, stop,
    the jingle wait loop and one iteration of the monitor loop).

    Conventions of the embedding.
    - A naive [datetime] is a [Z]: microseconds since midnight of a fixed
      day.  Naive datetimes have no time zone and no leap seconds, so a day
      is exactly [us_per_day] microseconds; the year range of [datetime] is
      not modelled.
    - [datetime.now()] is read inside the Python methods; here the instant
      read is an explicit argument [now].
    - A Python [str] is a [string]; its characters are code points below
      256, among which the decimal digits are exactly "0".."9".
    - Python [None] for an optional field is [None] of [option].
    - A call either returns, raises, or is still running when the fuel of
      its [while] loop is used up: type [res]. *)

From Stdlib Require Import ZArith List String Ascii Bool Lia.
From Stdlib Require Import Permutation Sorted DecimalString.
Import ListNotations.
Open Scope string_scope.
Open Scope list_scope.
Open Scope Z_scope.

(** ** Results of calls *)

Inductive exn := ValueError | IndexError.

Inductive res (A : Type) : Type :=
| Ok (a : A)
| Raise (e : exn)
| Timeout.
Arguments Ok {A} a.
Arguments Raise {A} e.
Arguments Timeout {A}.

Definition bind {A B} (r : res A) (k : A -> res B) : res B :=
  match r with
  | Ok a => k a
  | Raise e => Raise e
  | Timeout => Timeout
  end.

Notation "x <- r ;; k" := (bind r (fun x => k))
  (at level 61, r at next level, right associativity).

(** ** Time *)

Definition us_per_second : Z := 1000000.
Definition us_per_minute : Z := 60 * us_per_second.
Definition us_per_day : Z := 86400 * us_per_second.

(** [timedelta(seconds=3600.0 / n)] in microseconds, for an integer
    [n > 0]: a timedelta holds whole microseconds, the quotient is rounded
    to the nearest one, ties to even.  The error of the float division is
    not modelled: it is far below a microsecond, and for [n] up to 60, the
    range of the program's spin box, the value here is the one Python
    computes. *)
Definition period_us (n : Z) : Z :=
  let total := 3600 * us_per_second in
  let q := total / n in
  let r := total mod n in
  if 2 * r <? n then q
  else if n <? 2 * r then q + 1
  else if Z.even q then q else q + 1.

(** [now.replace(hour=h, minute=m, second=0, microsecond=0)]. *)
Definition replace_hm (now h m : Z) : Z :=
  (now / us_per_day) * us_per_day + (h * 60 + m) * us_per_minute.

(** ** [datetime.strptime(s, '%H:%M').time()]

    The format compiles to the regular expression
    [(2[0-3]|[0-1]\d|\d):([0-5]\d|\d)], matched from the start of the
    string, the alternatives tried in this order; text left after the match
    is a [ValueError].  The result is [Some (hour, minute)], [None] stands
    for the [ValueError]. *)

Definition digit_of (c : ascii) : option Z :=
  let k := Z.of_nat (nat_of_ascii c) in
  if (48 <=? k) && (k <=? 57) then Some (k - 48) else None.

Definition is_colon (c : ascii) : bool := Ascii.eqb c ":".

(** [%M] on the rest of the string, which must be used up. *)
Definition parse_minute (s : string) : option Z :=
  match s with
  | String m1 (String m2 EmptyString) =>
      match digit_of m1, digit_of m2 with
      | Some a, Some b => if a <=? 5 then Some (10 * a + b) else None
      | _, _ => None
      end
  | String m1 EmptyString => digit_of m1
  | _ => None
  end.

(** [%H] followed by the colon; returns the hour and the rest. *)
Definition parse_hour_colon (s : string) : option (Z * string) :=
  let two :=
    match s with
    | String h1 (String h2 (String c rest)) =>
        match digit_of h1, digit_of h2 with
        | Some a, Some b =>
            if is_colon c && (((a =? 2) && (b <=? 3)) || (a <=? 1))
            then Some (10 * a + b, rest) else None
        | _, _ => None
        end
    | _ => None
    end in
  match two with
  | Some r => Some r
  | None =>
      match s with
      | String h1 (String c rest) =>
          match digit_of h1 with
          | Some a => if is_colon c then Some (a, rest) else None
          | None => None
          end
      | _ => None
      end
  end.

Definition strptime_HM (s : string) : option (Z * Z) :=
  match parse_hour_colon s with
  | Some (h, rest) =>
      match parse_minute rest with
      | Some m => Some (h, m)
      | None => None
      end
  | None => None
  end.

(** ** Python list operations on [self.times] *)

(** [x in l] *)
Fixpoint py_in (x : string) (l : list string) : bool :=
  match l with
  | [] => false
  | y :: l' => if String.eqb y x then true else py_in x l'
  end.

(** [l.remove(x)] when [x in l]: the first equal element goes. *)
Fixpoint py_remove (x : string) (l : list string) : list string :=
  match l with
  | [] => []
  | y :: l' => if String.eqb y x then l' else y :: py_remove x l'
  end.

(** [not l] *)
Definition py_empty {A} (l : list A) : bool :=
  match l with [] => true | _ => false end.

(** ** class SchedulerState *)

Inductive Mode := Times | PerHour.

Definition mode_eqb (a b : option Mode) : bool :=
  match a, b with
  | None, None => true
  | Some Times, Some Times => true
  | Some PerHour, Some PerHour => true
  | _, _ => false
  end.

Record SchedulerState := mkSched {
  mode : option Mode;
  times : list string;
  per_hour : Z;
  next_jingle_time : option Z;
  last_jingle_time : option Z
}.

(** [SchedulerState.__init__] *)
Definition init : SchedulerState :=
  mkSched None [] 0 None None.

Definition set_per_hour (now n : Z) (st : SchedulerState) : SchedulerState :=
  mkSched (if 0 <? n then Some PerHour else None)
          (times st)
          n
          (if 0 <? n then Some (now + period_us n) else None)
          (Some now).

Definition add_time (timestr : string) (st : SchedulerState)
  : bool * SchedulerState :=
  match strptime_HM timestr with
  | None => (false, st)
  | Some _ =>
      (true, mkSched (Some Times) (times st ++ [timestr]) (per_hour st)
                     (next_jingle_time st) (last_jingle_time st))
  end.

Definition remove_time (timestr : string) (st : SchedulerState)
  : SchedulerState :=
  let ts := if py_in timestr (times st)
            then py_remove timestr (times st) else times st in
  mkSched (if py_empty ts && (per_hour st =? 0) then None else mode st)
          ts (per_hour st) (next_jingle_time st) (last_jingle_time st).

(** The [for tstr in list(self.times)] loop up to its [return True]: the
    first entry, in list order, whose instant today is not after [now]. *)
Fixpoint first_due (now : Z) (l : list string) : res (option string) :=
  match l with
  | [] => Ok None
  | tstr :: l' =>
      match strptime_HM tstr with
      | None => Raise ValueError
      | Some (h, m) =>
          if replace_hm now h m <=? now then Ok (Some tstr)
          else first_due now l'
      end
  end.

(** The [while now >= self.next_jingle_time] loop; [None] when the fuel
    runs out with the condition still true. *)
Fixpoint advance_loop (fuel : nat) (now period next : Z) (last : option Z)
  : option (Z * option Z) :=
  if next <=? now then
    match fuel with
    | O => None
    | S fuel' => advance_loop fuel' now period (next + period) (Some next)
    end
  else Some (next, last).

(** The first block of [should_play_jingle_after_song]: the entry that
    the call consumes, if it consumes one. *)
Definition fixed_due (now : Z) (st : SchedulerState) : res (option string) :=
  if mode_eqb (mode st) (Some Times) && negb (py_empty (times st))
  then first_due now (times st) else Ok None.

Definition should_play_jingle_after_song
  (fuel : nat) (now : Z) (st : SchedulerState)
  : res (bool * SchedulerState) :=
  due <- fixed_due now st ;;
  match due with
  | Some tstr =>
      let ts := py_remove tstr (times st) in
      Ok (true,
          mkSched (if py_empty ts && (per_hour st =? 0) then None else mode st)
                  ts (per_hour st) (next_jingle_time st) (last_jingle_time st))
  | None =>
      if mode_eqb (mode st) (Some PerHour) && (0 <? per_hour st) then
        match next_jingle_time st with
        | None => Ok (false, st)
        | Some next =>
            if next <=? now then
              match advance_loop fuel now (period_us (per_hour st)) next
                                 (last_jingle_time st) with
              | Some (next', last') =>
                  Ok (true, mkSched (mode st) (times st) (per_hour st)
                                    (Some next') last')
              | None => Timeout
              end
            else Ok (false, st)
        end
      else Ok (false, st)
  end.

(** [candidate <= now] for the entry [tstr]; an entry that does not parse
    is never due. *)
Definition due (now : Z) (tstr : string) : bool :=
  match strptime_HM tstr with
  | Some (h, m) => replace_hm now h m <=? now
  | None => false
  end.

Definition parses (s : string) : bool :=
  match strptime_HM s with Some _ => true | None => false end.

(** A series of end-of-song checks, one per instant of [nows]. *)
Fixpoint run_checks (fuel : nat) (nows : list Z) (st : SchedulerState)
  : res (list bool * SchedulerState) :=
  match nows with
  | [] => Ok ([], st)
  | now :: nows' =>
      r <- should_play_jingle_after_song fuel now st ;;
      rs <- run_checks fuel nows' (snd r) ;;
      Ok (fst r :: fst rs, snd rs)
  end.

(** ** The playback part of class JingleSchedulerApp

    The external player (python-vlc) is not code of the program.  What the
    program reads from it (a player state, [is_playing()]) is an argument
    of the method that reads it; what the program asks of it is appended to
    [calls].  Widget updates (button text, status label, current row) are
    left out. *)

Inductive VlcState :=
| NothingSpecial | Opening | Buffering | Playing
| Paused | Stopped | Ended | Error.

Definition VlcState_eq_dec (x y : VlcState) : {x = y} + {x <> y}.
Proof. decide equality. Defined.

Inductive Cmd :=
| MainSetMedia (path : string)
| MainPlay
| MainPause
| MainStop
| JingleSetMedia (path : string)
| JinglePlay
| JingleStop.

Record App := mkApp {
  playlist : list string;
  jingles : list string;
  play_index : Z;
  scheduler : SchedulerState;
  playing_jingle : bool;
  jplayer : option string;
  calls : list Cmd
}.

Definition with_calls (cs : list Cmd) (a : App) : App :=
  mkApp (playlist a) (jingles a) (play_index a) (scheduler a)
        (playing_jingle a) (jplayer a) (calls a ++ cs).

Definition with_index (i : Z) (a : App) : App :=
  mkApp (playlist a) (jingles a) i (scheduler a)
        (playing_jingle a) (jplayer a) (calls a).

Definition with_scheduler (s : SchedulerState) (a : App) : App :=
  mkApp (playlist a) (jingles a) (play_index a) s
        (playing_jingle a) (jplayer a) (calls a).

Definition with_playlist (l : list string) (a : App) : App :=
  mkApp l (jingles a) (play_index a) (scheduler a)
        (playing_jingle a) (jplayer a) (calls a).

Definition with_jingle (flag : bool) (h : option string) (a : App) : App :=
  mkApp (playlist a) (jingles a) (play_index a) (scheduler a)
        flag h (calls a).

Definition len {A} (l : list A) : Z := Z.of_nat (List.length l).

(** [l[i]]: a negative index counts from the end, an index outside
    [-len .. len-1] is an [IndexError]. *)
Definition py_getitem (l : list string) (i : Z) : res string :=
  if (0 <=? i) && (i <? len l) then Ok (nth (Z.to_nat i) l "")
  else if (- len l <=? i) && (i <? 0) then Ok (nth (Z.to_nat (len l + i)) l "")
  else Raise IndexError.

(** [if self.jplayer and self.playing_jingle: ...], the common start of
    [stop] and [play_next]. *)
Definition stop_active_jingle (a : App) : App :=
  match jplayer a with
  | Some _ =>
      if playing_jingle a
      then with_calls [JingleStop] (with_jingle false None a)
      else a
  | None => a
  end.

Definition _advance_index (a : App) : App :=
  if py_empty (playlist a) then a
  else with_index ((play_index a + 1) mod len (playlist a)) a.

Definition _play_current_song (a : App) : res App :=
  if py_empty (playlist a) then Ok a
  else
    path <- py_getitem (playlist a) (play_index a) ;;
    Ok (with_calls [MainSetMedia path; MainPlay] a).

Definition play_pause (is_playing : bool) (state : VlcState) (a : App)
  : res App :=
  if is_playing then Ok (with_calls [MainPause] a)
  else if py_empty (playlist a) then Ok a
  else
    match state with
    | Ended | NothingSpecial =>
        _play_current_song
          (with_index (Z.max 0 (Z.min (play_index a) (len (playlist a) - 1))) a)
    | _ => Ok (with_calls [MainPlay] a)
    end.

Definition stop (a : App) : App :=
  with_calls [MainStop] (stop_active_jingle a).

Definition play_next (a : App) : res App :=
  _play_current_song (_advance_index (stop_active_jingle a)).

(** What happens between two tests of [while self.playing_jingle]: the
    loop polls the jingle player, or, while it sleeps, a handler runs on the
    user-interface thread on the same object. *)
Inductive Event :=
| Poll (s : VlcState)
| PressNext
| PressStop
| EditPlaylist (l : list string).

Definition terminal (s : VlcState) : bool :=
  match s with
  | Ended | Stopped | Error => true
  | _ => false
  end.

(** The wait loop of [_play_jingle_once]; [Timeout] when the events are
    used up and the loop is still waiting. *)
Fixpoint jingle_wait (evs : list Event) (a : App) : res App :=
  if negb (playing_jingle a) then Ok a
  else
    match evs with
    | [] => Timeout
    | Poll s :: evs' => if terminal s then Ok a else jingle_wait evs' a
    | PressNext :: evs' => a' <- play_next a ;; jingle_wait evs' a'
    | PressStop :: evs' => jingle_wait evs' (stop a)
    | EditPlaylist l :: evs' => jingle_wait evs' (with_playlist l a)
    end.

Definition _play_jingle_once (jingle_path : string) (evs : list Event)
  (a : App) : res App :=
  if String.eqb jingle_path "" then Ok a
  else
    a' <- jingle_wait evs
            (with_calls [JingleSetMedia jingle_path; JinglePlay]
               (with_jingle true (Some jingle_path) a)) ;;
    Ok (with_jingle false None a').

(** [random.choice(self.jingles)], the index drawn being [pick]. *)
Definition random_choice (pick : nat) (l : list string) : string :=
  nth (pick mod List.length l) l "".

(** One iteration of the [while] loop of [_monitor_playback], [state]
    being what [self.player.get_state()] returned. *)
Definition monitor_iteration (state : VlcState) (fuel : nat) (now : Z)
  (pick : nat) (evs : list Event) (a : App) : res App :=
  match state with
  | Ended =>
      r <- should_play_jingle_after_song fuel now (scheduler a) ;;
      let a1 := with_scheduler (snd r) a in
      a2 <- (if fst r && negb (py_empty (jingles a1))
             then _play_jingle_once (random_choice pick (jingles a1)) evs a1
             else Ok a1) ;;
      _play_current_song (_advance_index a2)
  | _ => Ok a
  end.

(** ** States of the scheduler that the program can reach *)

Inductive reachable : SchedulerState -> Prop :=
| reach_init : reachable init
| reach_set_per_hour now n st :
    reachable st -> reachable (set_per_hour now n st)
| reach_add_time s st :
    reachable st -> reachable (snd (add_time s st))
| reach_remove_time s st :
    reachable st -> reachable (remove_time s st)
| reach_should_play fuel now st b st' :
    reachable st ->
    should_play_jingle_after_song fuel now st = Ok (b, st') ->
    reachable st'.

(** ** Editing the playlist

    The handlers of the playlist buttons.  The list widget mirrors
    [self.playlist] row for row and is not modelled; [rows] is what
    [selectedIndexes()] gives, the rows of the selected items.  A handler
    that raises part of the way leaves the list half edited in Python; here
    the result is just [Raise]. *)

(** [sorted(rows)] on integers. *)
Fixpoint insert_sorted (x : Z) (l : list Z) : list Z :=
  match l with
  | [] => [x]
  | y :: l' => if x <=? y then x :: l else y :: insert_sorted x l'
  end.

Definition sorted (l : list Z) : list Z := fold_right insert_sorted [] l.

(** [sorted(rows, reverse=True)] on integers. *)
Definition sorted_reverse (l : list Z) : list Z := rev (sorted l).

(** The position an index stands for, as for [py_getitem]. *)
Definition py_position {A} (l : list A) (i : Z) : res nat :=
  if (0 <=? i) && (i <? len l) then Ok (Z.to_nat i)
  else if (- len l <=? i) && (i <? 0) then Ok (Z.to_nat (len l + i))
  else Raise IndexError.

(** [del l[i]] *)
Definition py_delitem (l : list string) (i : Z) : res (list string) :=
  k <- py_position l i ;;
  Ok (firstn k l ++ skipn (S k) l).

(** [l[i] = x] *)
Definition py_setitem (l : list string) (i : Z) (x : string)
  : res (list string) :=
  k <- py_position l i ;;
  Ok (firstn k l ++ x :: skipn (S k) l).

(** [for row in rows: del self.playlist[row]] *)
Fixpoint delete_rows (rows : list Z) (l : list string) : res (list string) :=
  match rows with
  | [] => Ok l
  | row :: rows' => l' <- py_delitem l row ;; delete_rows rows' l'
  end.

Definition remove_selected_songs (rows : list Z) (a : App) : res App :=
  if py_empty rows then Ok a
  else
    l <- delete_rows (sorted_reverse rows) (playlist a) ;;
    Ok (with_playlist l a).

(** [l[i], l[j] = (l[j], l[i])]: both reads, then the two writes. *)
Definition py_swap (l : list string) (i j : Z) : res (list string) :=
  x <- py_getitem l j ;;
  y <- py_getitem l i ;;
  l1 <- py_setitem l i x ;;
  py_setitem l1 j y.

(** [for row in rows: swap row with row + d], [d] being -1 or 1. *)
Fixpoint swap_rows (d : Z) (rows : list Z) (l : list string)
  : res (list string) :=
  match rows with
  | [] => Ok l
  | row :: rows' => l' <- py_swap l row (row + d) ;; swap_rows d rows' l'
  end.

Definition move_up (rows : list Z) (a : App) : res App :=
  if py_empty rows then Ok a
  else
    let rows := sorted rows in
    if hd 0 rows =? 0 then Ok a
    else
      l <- swap_rows (-1) rows (playlist a) ;;
      Ok (with_playlist l a).

(** [self.playlistView.count()] is the length of the playlist. *)
Definition move_down (rows : list Z) (a : App) : res App :=
  if py_empty rows then Ok a
  else
    let rows := sorted_reverse rows in
    if hd 0 rows =? len (playlist a) - 1 then Ok a
    else
      l <- swap_rows 1 rows (playlist a) ;;
      Ok (with_playlist l a).

(** [add_songs], [files] being what the file dialog returned. *)
Definition add_songs (files : list string) (a : App) : App :=
  with_playlist (playlist a ++ files) a.

(** ** The cache file

    What [json.load] returns and [json.dump] takes is a dictionary; its
    four keys are the fields here, [None] for a key that is missing.  The
    file itself and its JSON text are not modelled. *)

Record Cache := mkCache {
  c_playlist : option (list string);
  c_jingles : option (list string);
  c_per_hour : option Z;
  c_scheduled_times : option (list string)
}.

(** [cache.get(key, default)] *)
Definition get_default {A} (v : option A) (default : A) : A :=
  match v with Some x => x | None => default end.

(** [for t in ...: self.scheduler.add_time(t); self.timeList.addItem(t)]:
    the scheduler, and the rows added to the list of times on screen. *)
Fixpoint restore_times (ts : list string) (st : SchedulerState)
  : SchedulerState :=
  match ts with
  | [] => st
  | t :: ts' => restore_times ts' (snd (add_time t st))
  end.

(** The state of a new window before the cache is read. *)
Definition new_app : App := mkApp [] [] 0 init false None [].

(** The part of [__init__] that reads the cache into a new window;
    [cache] is [None] when the file does not exist.  The second result is
    the content of [self.timeList]. *)
Definition load_cache (now : Z) (cache : option Cache) (a : App)
  : App * list string :=
  match cache with
  | None => (a, [])
  | Some c =>
      let ts := get_default (c_scheduled_times c) [] in
      (mkApp (get_default (c_playlist c) [])
             (get_default (c_jingles c) [])
             (play_index a)
             (restore_times ts
                (set_per_hour now (get_default (c_per_hour c) 0)
                              (scheduler a)))
             (playing_jingle a) (jplayer a) (calls a),
       ts)
  end.


(** ** Notions used in the statements *)

(** Number of loop steps for a check at [now] when [next] is due. *)
Definition steps_needed (now period next : Z) : nat :=
  Z.to_nat ((now - next) / period + 1).

(** The window of the period grid that an instant falls in: window [w]
    is [D0 + w * P <= now < D0 + (w + 1) * P]. *)
Definition window (D0 P now : Z) : Z := (now - D0) / P.

(** Successive instants, each after the one before and less than [P]
    after it, the first counted from [prev]. *)
Fixpoint spaced (P prev : Z) (nows : list Z) : bool :=
  match nows with
  | [] => true
  | t :: nows' => (prev <? t) && (t - prev <? P) && spaced P t nows'
  end.

(** Per-hour mode for [n] jingles an hour with the due instant on the grid,
    [m] periods after [D0]. *)
Definition armed (n D0 m : Z) (st : SchedulerState) : Prop :=
  mode st = Some PerHour /\ per_hour st = n /\
  next_jingle_time st = Some (D0 + m * period_us n).

(** What every operation of the scheduler preserves. *)
Record sched_inv (st : SchedulerState) : Prop := {
  inv_per_hour_mode : mode st = Some PerHour -> 0 < per_hour st;
  inv_idle : times st = [] -> per_hour st = 0 -> mode st = None;
  inv_none : mode st = None -> per_hour st <= 0;
  inv_next_set : 0 < per_hour st -> exists d, next_jingle_time st = Some d;
  inv_next_unset : per_hour st <= 0 -> next_jingle_time st = None;
  inv_parses : forallb parses (times st) = true
}.

(** The cursor is inside the list, or there is nothing to play. *)
Definition cursor_ok (a : App) : Prop :=
  playlist a = [] \/ 0 <= play_index a < len (playlist a).

(** The last thing asked of the main player was to load and play the song
    under the cursor. *)
Definition plays_current (before a : App) : Prop :=
  calls a =
  calls before
  ++ [MainSetMedia (nth (Z.to_nat (play_index a)) (playlist a) ""); MainPlay].

(** The song in row [i]. *)
Definition song_at (l : list string) (i : Z) : string :=
  nth (Z.to_nat i) l "".

(** The list without the rows in [rows], [i] being the row of the head. *)
Fixpoint without_rows (rows : list Z) (i : Z) (l : list string)
  : list string :=
  match l with
  | [] => []
  | x :: l' =>
      if existsb (Z.eqb i) rows then without_rows rows (i + 1) l'
      else x :: without_rows rows (i + 1) l'
  end.

(** The number of [True] among the results of a run. *)
Definition fires (bs : list bool) : nat := count_occ Bool.bool_dec bs true.

(** A number below 100 written with two decimal digits. *)
Definition two_digits (v : Z) : string :=
  String (ascii_of_nat (Z.to_nat (48 + v / 10)))
    (String (ascii_of_nat (Z.to_nat (48 + v mod 10))) "").

(** The literal HH:MM of an hour and a minute. *)
Definition hhmm (h m : Z) : string := two_digits h ++ ":" ++ two_digits m.

(** No jingle is in progress. *)
Definition jingle_idle (a : App) : Prop :=
  playing_jingle a = false /\ jplayer a = None.

(** The rows that [add_songs] gives to the files it appends. *)
Definition new_rows (a : App) (files : list string) : list Z :=
  map Z.of_nat (seq (List.length (playlist a)) (List.length files)).

(** ** The status line *)





(** * Properties *)

(** ** The period and the catch-up loop *)

Lemma period_us_pos (n : Z) :
  0 < n < 7200000000 -> 0 < period_us n.
Proof.
  intros Hn. unfold period_us, us_per_second.
  set (total := 3600 * 1000000).
  assert (Hdm : total = n * (total / n) + total mod n)
    by (apply Z.div_mod; lia).
  assert (Hr : 0 <= total mod n < n) by (apply Z.mod_pos_bound; lia).
  assert (Hq : 0 <= total / n) by (apply Z.div_pos; unfold total; lia).
  assert (Hq1 : total / n = 0 -> n < 2 * (total mod n)).
  { intros E. rewrite E in Hdm. unfold total in *. lia. }
  destruct (2 * (total mod n) <? n) eqn:E1.
  - apply Z.ltb_lt in E1. destruct (Z.eq_dec (total / n) 0); lia.
  - destruct (n <? 2 * (total mod n)) eqn:E2; [lia|].
    apply Z.ltb_ge in E1, E2.
    destruct (Z.eq_dec (total / n) 0) as [E|E]; [specialize (Hq1 E); lia|].
    destruct (Z.even (total / n)); lia.
Qed.

Lemma period_us_nonneg (n : Z) : 0 < n -> 0 <= period_us n.
Proof.
  intros Hn. unfold period_us, us_per_second.
  assert (Hq : 0 <= 3600 * 1000000 / n) by (apply Z.div_pos; lia).
  destruct (2 * ((3600 * 1000000) mod n) <? n); [exact Hq|].
  destruct (n <? 2 * ((3600 * 1000000) mod n)); [lia|].
  destruct (Z.even (3600 * 1000000 / n)); lia.
Qed.

(** With a positive period the loop stops after the [k] steps that take
    [next] past [now], whatever fuel is left beyond [k]. *)
Lemma advance_loop_steps (now period : Z) (k : nat) :
  0 < period ->
  forall (fuel : nat) (next : Z) (last : option Z),
    (k <= fuel)%nat ->
    now < next + Z.of_nat k * period ->
    (k = O \/ next + (Z.of_nat k - 1) * period <= now) ->
    advance_loop fuel now period next last =
    Some (next + Z.of_nat k * period,
          match k with
          | O => last
          | S _ => Some (next + (Z.of_nat k - 1) * period)
          end).
Proof.
  intros Hp. induction k as [|k IH]; intros fuel next last Hf Hlt Hge.
  - assert (E : (next <=? now) = false) by (apply Z.leb_gt; lia).
    destruct fuel; simpl; rewrite E; f_equal; f_equal; lia.
  - destruct Hge as [Hge|Hge]; [discriminate|].
    assert (E : (next <=? now) = true) by (apply Z.leb_le; nia).
    destruct fuel as [|fuel]; [lia|]. simpl advance_loop. rewrite E.
    rewrite (IH fuel (next + period) (Some next)) by lia.
    f_equal. f_equal; [lia|]. destruct k; f_equal; lia.
Qed.

(** What a finished loop has done. *)
Lemma advance_loop_result (now period : Z) :
  0 < period ->
  forall (fuel : nat) (next : Z) (last : option Z) (next' : Z)
         (last' : option Z),
    advance_loop fuel now period next last = Some (next', last') ->
    exists k : Z,
      0 <= k /\ next' = next + k * period /\ now < next' /\
      (k = 0 -> last' = last) /\
      (0 < k -> last' = Some (next' - period) /\ next' - period <= now).
Proof.
  intros Hp.
  assert (Hstop : forall next last next' last',
             (next <=? now) = false ->
             Some (next, last) = Some (next', last') ->
             exists k : Z,
               0 <= k /\ next' = next + k * period /\ now < next' /\
               (k = 0 -> last' = last) /\
               (0 < k -> last' = Some (next' - period) /\
                         next' - period <= now)).
  { intros next last next' last' E H. injection H as <- <-.
    apply Z.leb_gt in E. exists 0.
    split; [lia|]. split; [lia|]. split; [lia|].
    split; [reflexivity|lia]. }
  induction fuel as [|fuel IH]; intros next last next' last' H;
    simpl in H; destruct (next <=? now) eqn:E; try discriminate;
    eauto.
  apply IH in H. destruct H as (k & Hk & Hn & Hlt & H0 & H1).
  apply Z.leb_le in E. exists (k + 1).
  split; [lia|]. split; [lia|]. split; [lia|]. split; [lia|].
  intros _. destruct (Z.eq_dec k 0) as [->|Hk0].
  - rewrite (H0 eq_refl). split; [f_equal|]; lia.
  - apply H1; lia.
Qed.

(** With a period of zero the loop, once entered, never ends. *)
Lemma advance_loop_zero (now : Z) (fuel : nat) :
  forall (next : Z) (last : option Z),
    next <= now -> advance_loop fuel now 0 next last = None.
Proof.
  induction fuel as [|fuel IH]; intros next last H; simpl;
    (replace (next <=? now) with true by (symmetry; apply Z.leb_le; lia)).
  - reflexivity.
  - apply IH. lia.
Qed.

Lemma steps_needed_bounds (now period next : Z) :
  0 < period -> next <= now ->
  let k := Z.of_nat (steps_needed now period next) in
  1 <= k /\ next + (k - 1) * period <= now < next + k * period.
Proof.
  intros Hp Hle. unfold steps_needed.
  assert (Hq : 0 <= (now - next) / period) by (apply Z.div_pos; lia).
  assert (Hdm : now - next = period * ((now - next) / period)
                             + (now - next) mod period)
    by (apply Z.div_mod; lia).
  assert (Hr : 0 <= (now - next) mod period < period)
    by (apply Z.mod_pos_bound; lia).
  cbv zeta. rewrite Z2Nat.id by lia. nia.
Qed.

(** ** One check in per-hour mode *)

Lemma should_play_per_hour_early (fuel : nat) (now d : Z)
  (st : SchedulerState) :
  mode st = Some PerHour ->
  next_jingle_time st = Some d ->
  now < d ->
  should_play_jingle_after_song fuel now st = Ok (false, st).
Proof.
  intros Hm Hn Hlt. unfold should_play_jingle_after_song, fixed_due.
  rewrite Hm, Hn. simpl.
  replace (d <=? now) with false by (symmetry; apply Z.leb_gt; lia).
  destruct (0 <? per_hour st); reflexivity.
Qed.

Lemma should_play_per_hour_due (fuel : nat) (now d : Z)
  (st : SchedulerState) :
  mode st = Some PerHour ->
  0 < per_hour st ->
  0 < period_us (per_hour st) ->
  next_jingle_time st = Some d ->
  d <= now ->
  (steps_needed now (period_us (per_hour st)) d <= fuel)%nat ->
  let k := Z.of_nat (steps_needed now (period_us (per_hour st)) d) in
  should_play_jingle_after_song fuel now st =
  Ok (true, mkSched (mode st) (times st) (per_hour st)
                    (Some (d + k * period_us (per_hour st)))
                    (Some (d + (k - 1) * period_us (per_hour st)))).
Proof.
  intros Hm Hph Hp Hn Hle Hf k.
  destruct (steps_needed_bounds now (period_us (per_hour st)) d Hp Hle)
    as (Hk & Hlo & Hhi). fold k in Hk, Hlo, Hhi.
  unfold should_play_jingle_after_song, fixed_due. rewrite Hm, Hn. simpl.
  replace (0 <? per_hour st) with true by (symmetry; apply Z.ltb_lt; lia).
  replace (d <=? now) with true by (symmetry; apply Z.leb_le; lia).
  rewrite (advance_loop_steps now (period_us (per_hour st))
             (steps_needed now (period_us (per_hour st)) d) Hp
             fuel d (last_jingle_time st) Hf Hhi (or_intror Hlo)).
  fold k. destruct (steps_needed now (period_us (per_hour st)) d) eqn:E;
    [subst k; simpl in Hk; lia|].
  reflexivity.
Qed.

Lemma run_checks_app (fuel : nat) (l1 l2 : list Z) :
  forall st : SchedulerState,
    run_checks fuel (l1 ++ l2) st =
    (r1 <- run_checks fuel l1 st ;;
     r2 <- run_checks fuel l2 (snd r1) ;;
     Ok (fst r1 ++ fst r2, snd r2)).
Proof.
  induction l1 as [|a l1 IH]; intros st; simpl.
  - destruct (run_checks fuel l2 st) as [[bs s]| |]; reflexivity.
  - destruct (should_play_jingle_after_song fuel a st) as [[b s]| |];
      simpl; try reflexivity.
    rewrite IH. destruct (run_checks fuel l1 s) as [[bs1 s1]| |];
      simpl; try reflexivity.
    destruct (run_checks fuel l2 s1) as [[bs2 s2]| |]; reflexivity.
Qed.

Lemma run_checks_early (fuel : nat) (d : Z) (st : SchedulerState)
  (nows : list Z) :
  mode st = Some PerHour ->
  next_jingle_time st = Some d ->
  Forall (fun t => t < d) nows ->
  run_checks fuel nows st = Ok (repeat false (List.length nows), st).
Proof.
  intros Hm Hn H. induction H as [|t nows Ht _ IH]; simpl.
  - reflexivity.
  - rewrite (should_play_per_hour_early fuel t d st Hm Hn Ht). simpl.
    rewrite IH. reflexivity.
Qed.

(** C1, as amended: for every n > 0, right after set_per_hour(n) at
    instant t0 the next due instant is t0 + 3600/n, and every check at an
    instant before it returns False and leaves the state as it is.  For
    n < 7200000000 (the values whose period 3600/n is at least one
    microsecond) the first check at or after the due instant returns True
    (the loop ends within steps_needed steps), and after it
    next_jingle_time is the due instant plus k >= 1 whole periods and
    strictly after now, while last_jingle_time is one period before it and
    not after now; mode, times and per_hour are as they were. *)
Theorem per_hour_first_fire (n t0 : Z) (st : SchedulerState) :
  0 < n ->
  let st0 := set_per_hour t0 n st in
  let due0 := t0 + period_us n in
  next_jingle_time st0 = Some due0 /\
  (forall fuel now,
      now < due0 ->
      should_play_jingle_after_song fuel now st0 = Ok (false, st0)) /\
  (n < 7200000000 ->
   forall before now,
     Forall (fun t => t < due0) before ->
     due0 <= now ->
     exists (k : Z) (st1 : SchedulerState),
       1 <= k /\
       (forall fuel,
           (steps_needed now (period_us n) due0 <= fuel)%nat ->
           run_checks fuel (before ++ [now]) st0 =
           Ok (repeat false (List.length before) ++ [true], st1)) /\
       next_jingle_time st1 = Some (due0 + k * period_us n) /\
       now < due0 + k * period_us n /\
       last_jingle_time st1 = Some (due0 + (k - 1) * period_us n) /\
       due0 + (k - 1) * period_us n <= now /\
       mode st1 = Some PerHour /\
       per_hour st1 = n /\
       times st1 = times st).
Proof.
  intros Hn st0 due0.
  assert (Hpos : (0 <? n) = true) by (apply Z.ltb_lt; lia).
  assert (Hm : mode st0 = Some PerHour)
    by (unfold st0, set_per_hour; simpl; rewrite Hpos; reflexivity).
  assert (Hnx : next_jingle_time st0 = Some due0)
    by (unfold st0, set_per_hour; simpl; rewrite Hpos; reflexivity).
  split; [exact Hnx|]. split.
  - intros fuel now Hlt.
    apply (should_play_per_hour_early fuel now due0 st0 Hm Hnx Hlt).
  - intros Hbig before now Hbefore Hle.
    assert (Hp : 0 < period_us n) by (apply period_us_pos; lia).
    destruct (steps_needed_bounds now (period_us n) due0 Hp Hle)
      as (Hk & Hlo & Hhi).
    set (k := Z.of_nat (steps_needed now (period_us n) due0)) in *.
    exists k.
    exists (mkSched (mode st0) (times st0) (per_hour st0)
                    (Some (due0 + k * period_us n))
                    (Some (due0 + (k - 1) * period_us n))).
    split; [exact Hk|]. split.
    + intros fuel Hf. rewrite run_checks_app.
      rewrite (run_checks_early fuel due0 st0 before Hm Hnx Hbefore).
      simpl.
      rewrite (should_play_per_hour_due fuel now due0 st0 Hm); simpl;
        try assumption; try lia.
      reflexivity.
    + simpl. rewrite Hpos. repeat split; try reflexivity; lia.
Qed.

(** The amended C1 at n = 2, configured at instant 0: the checks at 1700 s
    and 1800 s. *)
Lemma per_hour_first_fire_witness :
  0 < 2 /\
  should_play_jingle_after_song 1 1700000000 (set_per_hour 0 2 init) =
    Ok (false, set_per_hour 0 2 init) /\
  exists (k : Z) (st1 : SchedulerState),
    1 <= k /\
    run_checks 1 ([1700000000] ++ [1800000000]) (set_per_hour 0 2 init) =
      Ok ([false] ++ [true], st1) /\
    next_jingle_time st1 = Some (1800000000 + k * 1800000000).
Proof.
  assert (H2 : 0 < 2) by reflexivity.
  destruct (per_hour_first_fire 2 0 init H2) as (_ & Hearly & Hfire).
  split; [exact H2|]. split.
  - apply Hearly. reflexivity.
  - destruct (Hfire eq_refl [1700000000] 1800000000)
      as (k & st1 & Hk & Hrun & Hnx & _).
    + repeat constructor.
    + discriminate.
    + exists k, st1. split; [exact Hk|]. split; [|exact Hnx].
      apply (Hrun 1%nat). apply le_n.
Defined.

(** C1 as stated fails for a large n: for n = 10^10 the period 3600/n is
    0.36 microseconds, which a timedelta holds as zero, so the due instant
    is the configuration instant itself and a check at or after it never
    leaves the catch-up loop: no amount of fuel makes it return. *)
Lemma per_hour_huge_n_never_returns :
  0 < 10000000000 /\
  next_jingle_time (set_per_hour 0 10000000000 init) = Some 0 /\
  forall fuel : nat,
    should_play_jingle_after_song fuel 5 (set_per_hour 0 10000000000 init)
    = Timeout.
Proof.
  split; [lia|]. split; [reflexivity|].
  intros fuel. unfold should_play_jingle_after_song, fixed_due.
  change (set_per_hour 0 10000000000 init)
    with (mkSched (Some PerHour) [] 10000000000 (Some 0) (Some 0)).
  cbn -[advance_loop period_us].
  change (period_us 10000000000) with 0.
  rewrite advance_loop_zero by lia. reflexivity.
Qed.

(** ** Runs of checks in per-hour mode *)

Section PerHourRuns.

Variables n D0 : Z.
Hypothesis n_pos : 0 < n.

Lemma armed_step (m : Z) (st : SchedulerState) (fuel : nat) (now : Z)
  (b : bool) (st' : SchedulerState) :
  armed n D0 m st ->
  should_play_jingle_after_song fuel now st = Ok (b, st') ->
  exists m',
    m <= m' /\ armed n D0 m' st' /\ times st' = times st /\
    (b = false -> st' = st) /\
    (b = true -> m < m' /\ window D0 (period_us n) now = m' - 1 /\
                 now < D0 + m' * period_us n).
Proof.
  intros (Hm & Hph & Hnx) H.
  unfold should_play_jingle_after_song, fixed_due in H.
  rewrite Hm, Hnx, Hph in H. simpl in H.
  replace (0 <? n) with true in H by (symmetry; apply Z.ltb_lt; lia).
  destruct (D0 + m * period_us n <=? now) eqn:E.
  - destruct (advance_loop fuel now (period_us n) (D0 + m * period_us n)
                (last_jingle_time st)) as [[next' last']|] eqn:EL;
      [|discriminate].
    injection H as <- <-.
    apply Z.leb_le in E.
    assert (period_pos : 0 < period_us n).
    { pose proof (period_us_nonneg n n_pos) as Hnn.
      destruct (Z.eq_dec (period_us n) 0) as [Hz|Hz]; [|lia].
      rewrite Hz in EL. rewrite advance_loop_zero in EL by lia.
      discriminate. }
    apply (advance_loop_result now _ period_pos) in EL.
    destruct EL as (k & Hk & Hn' & Hlt & _ & H1).
    assert (Hk1 : 0 < k) by nia.
    destruct (H1 Hk1) as (_ & Hlo).
    exists (m + k). split; [lia|]. split.
    { unfold armed; simpl. repeat split; try assumption.
      f_equal. lia. }
    split; [reflexivity|]. split; [discriminate|].
    intros _. split; [lia|]. split; [|lia].
    unfold window. symmetry.
    apply (Z.div_unique _ _ _ (now - D0 - period_us n * (m + k - 1)));
      [left|]; nia.
  - injection H as <- <-. exists m. split; [lia|].
    split; [repeat split; assumption|]. split; [reflexivity|].
    split; [reflexivity|discriminate].
Qed.

(** A True later in a run falls in a window from [m] on. *)
Lemma armed_run_later (fuel : nat) (nows : list Z) :
  forall (m : Z) (st : SchedulerState) (bs : list bool)
         (st' : SchedulerState),
    armed n D0 m st ->
    run_checks fuel nows st = Ok (bs, st') ->
    forall (j : nat) (b : Z),
      nth_error nows j = Some b ->
      nth_error bs j = Some true ->
      m <= window D0 (period_us n) b.
Proof.
  induction nows as [|now nows IH]; intros m st bs st' Ha H j b Hj Hb.
  - destruct j; discriminate.
  - simpl in H.
    destruct (should_play_jingle_after_song fuel now st)
      as [[b0 st1]| |] eqn:E0; try discriminate. simpl in H.
    destruct (run_checks fuel nows st1) as [[bs1 st2]| |] eqn:E1;
      try discriminate. simpl in H. injection H as <- <-.
    destruct (armed_step m st fuel now b0 st1 Ha E0)
      as (m1 & Hle & Ha1 & _ & _ & Htrue).
    destruct j as [|j]; simpl in Hj, Hb.
    + injection Hj as <-. injection Hb as ->.
      destruct (Htrue eq_refl) as (? & -> & _). lia.
    + specialize (IH m1 st1 bs1 st2 Ha1 E1 j b Hj Hb). lia.
Qed.

(** Two Trues of a run fall in different windows, in order. *)
Lemma armed_run_windows (fuel : nat) (nows : list Z) :
  forall (m : Z) (st : SchedulerState) (bs : list bool)
         (st' : SchedulerState),
    armed n D0 m st ->
    run_checks fuel nows st = Ok (bs, st') ->
    forall (i j : nat) (a b : Z),
      (i < j)%nat ->
      nth_error nows i = Some a -> nth_error nows j = Some b ->
      nth_error bs i = Some true -> nth_error bs j = Some true ->
      window D0 (period_us n) a < window D0 (period_us n) b.
Proof.
  induction nows as [|now nows IH];
    intros m st bs st' Ha H i j a b Hij Hi Hj Hbi Hbj.
  - destruct i; discriminate.
  - simpl in H.
    destruct (should_play_jingle_after_song fuel now st)
      as [[b0 st1]| |] eqn:E0; try discriminate. simpl in H.
    destruct (run_checks fuel nows st1) as [[bs1 st2]| |] eqn:E1;
      try discriminate. simpl in H. injection H as <- <-.
    destruct (armed_step m st fuel now b0 st1 Ha E0)
      as (m1 & Hle & Ha1 & _ & _ & Htrue).
    destruct j as [|j]; [lia|]. simpl in Hj, Hbj.
    destruct i as [|i]; simpl in Hi, Hbi.
    + injection Hi as <-. injection Hbi as ->.
      destruct (Htrue eq_refl) as (_ & Hw & _).
      pose proof (armed_run_later fuel nows m1 st1 bs1 st2 Ha1 E1
                    j b Hj Hbj). lia.
    + apply (IH m1 st1 bs1 st2 Ha1 E1 i j a b); try assumption. lia.
Qed.

(** A run keeps the schedule armed on the grid. *)
Lemma armed_run (fuel : nat) (nows : list Z) :
  forall (m : Z) (st : SchedulerState) (bs : list bool)
         (st' : SchedulerState),
    armed n D0 m st ->
    run_checks fuel nows st = Ok (bs, st') ->
    exists m', m <= m' /\ armed n D0 m' st'.
Proof.
  induction nows as [|now nows IH]; intros m st bs st' Ha H.
  - injection H as <- <-. exists m. split; [lia|assumption].
  - simpl in H.
    destruct (should_play_jingle_after_song fuel now st)
      as [[b0 st1]| |] eqn:E0; try discriminate. simpl in H.
    destruct (run_checks fuel nows st1) as [[bs1 st2]| |] eqn:E1;
      try discriminate. simpl in H. injection H as <- <-.
    destruct (armed_step m st fuel now b0 st1 Ha E0)
      as (m1 & Hle & Ha1 & _).
    destruct (IH m1 st1 bs1 st2 Ha1 E1) as (m2 & Hle2 & Ha2).
    exists m2. split; [lia|assumption].
Qed.

(** Every run returns, given fuel for its longest catch-up. *)
Lemma armed_run_returns (nows : list Z) :
  0 < period_us n ->
  forall (m : Z) (st : SchedulerState),
    armed n D0 m st ->
    exists (fuel0 : nat) (bs : list bool) (st' : SchedulerState),
    forall fuel,
      (fuel0 <= fuel)%nat -> run_checks fuel nows st = Ok (bs, st').
Proof.
  intros period_pos.
  induction nows as [|now nows IH]; intros m st Ha.
  - exists O, [], st. reflexivity.
  - destruct Ha as (Hm & Hph & Hnx).
    destruct (Z_lt_le_dec now (D0 + m * period_us n)) as [Hlt|Hle].
    + destruct (IH m st (conj Hm (conj Hph Hnx))) as (f & bs & st' & Hr).
      exists f, (false :: bs), st'. intros fuel Hf. simpl.
      rewrite (should_play_per_hour_early fuel now _ st Hm Hnx Hlt).
      simpl. rewrite (Hr fuel Hf). reflexivity.
    + set (k := steps_needed now (period_us n) (D0 + m * period_us n)).
      set (st1 := mkSched (mode st) (times st) n
                    (Some (D0 + m * period_us n
                           + Z.of_nat k * period_us n))
                    (Some (D0 + m * period_us n
                           + (Z.of_nat k - 1) * period_us n))).
      assert (Ha1 : armed n D0 (m + Z.of_nat k) st1).
      { unfold armed, st1; simpl.
        repeat split; try assumption. f_equal. lia. }
      destruct (IH _ st1 Ha1) as (f & bs & st' & Hr).
      exists (Nat.max k f), (true :: bs), st'. intros fuel Hf. simpl.
      pose proof (should_play_per_hour_due fuel now
                    (D0 + m * period_us n) st Hm) as Hdue.
      rewrite Hph in Hdue.
      specialize (Hdue n_pos period_pos Hnx Hle).
      fold k in Hdue. cbv zeta in Hdue. fold st1 in Hdue.
      rewrite Hdue by lia. simpl.
      rewrite (Hr fuel) by lia. reflexivity.
Qed.

End PerHourRuns.

(** C3, as amended: for every n > 0, starting right after
    set_per_hour(n) at t0, in every series of checks (whatever the
    instants, increasing and closely spaced or not) at most one check
    returns True in each window of the period grid,
    [D0 + w*P, D0 + (w+1)*P) with P = 3600/n and D0 = t0 + P, and Trues
    come in increasing windows; and after a True, every check at an
    instant still before the re-armed next_jingle_time returns False and
    changes nothing.  (Two Trues in neighbouring windows may be less than
    P apart.)  For n < 7200000000 every series of checks returns. *)
Theorem per_hour_one_fire_per_window (n t0 : Z) (st : SchedulerState)
  (nows : list Z) :
  0 < n ->
  let P := period_us n in
  let D0 := t0 + P in
  let st0 := set_per_hour t0 n st in
  (forall fuel bs st',
      run_checks fuel nows st0 = Ok (bs, st') ->
      forall (i j : nat) (a b : Z),
        (i < j)%nat ->
        nth_error nows i = Some a -> nth_error nows j = Some b ->
        nth_error bs i = Some true -> nth_error bs j = Some true ->
        window D0 P a < window D0 P b) /\
  (forall fuel bs stk,
      run_checks fuel nows st0 = Ok (bs, stk) ->
      forall fuel1 now st1,
        should_play_jingle_after_song fuel1 now stk = Ok (true, st1) ->
        exists d,
          next_jingle_time st1 = Some d /\ now < d /\
          forall fuel2 now',
            now' < d ->
            should_play_jingle_after_song fuel2 now' st1 = Ok (false, st1)) /\
  (n < 7200000000 ->
   exists (fuel0 : nat) (bs : list bool) (st' : SchedulerState),
   forall fuel,
     (fuel0 <= fuel)%nat -> run_checks fuel nows st0 = Ok (bs, st')).
Proof.
  intros Hpos P D0 st0.
  assert (Ha0 : armed n D0 0 st0).
  { unfold armed, st0, set_per_hour; simpl.
    replace (0 <? n) with true by (symmetry; apply Z.ltb_lt; lia).
    repeat split. f_equal. unfold D0, P. lia. }
  split; [|split].
  - intros fuel bs st' Hrun.
    exact (armed_run_windows n D0 Hpos fuel nows 0 st0 bs st' Ha0 Hrun).
  - intros fuel bs stk Hrun fuel1 now st1 Hfire.
    destruct (armed_run n D0 Hpos fuel nows 0 st0 bs stk Ha0 Hrun)
      as (m & _ & Hak).
    destruct (armed_step n D0 Hpos m stk fuel1 now true st1 Hak Hfire)
      as (m1 & _ & (Hm1 & _ & Hnx1) & _ & _ & Htrue).
    destruct (Htrue eq_refl) as (_ & _ & Hlt).
    exists (D0 + m1 * period_us n). split; [exact Hnx1|]. split; [exact Hlt|].
    intros fuel2 now' Hlt'.
    exact (should_play_per_hour_early fuel2 now' _ st1 Hm1 Hnx1 Hlt').
  - intros Hn.
    assert (Hp : 0 < period_us n) by (apply period_us_pos; lia).
    exact (armed_run_returns n D0 Hpos nows Hp 0 st0 Ha0).
Qed.

(** The amended C3 on one jingle per hour configured at instant 0 and
    checks at 3000 s, 6500 s and 7200 s: the two Trues are in windows 0
    and 1. *)
Lemma per_hour_one_fire_per_window_witness :
  0 < 1 /\
  window 3600000000 3600000000 6500000000
  < window 3600000000 3600000000 7200000000.
Proof.
  assert (H1 : 0 < 1) by reflexivity.
  split; [exact H1|].
  destruct (per_hour_one_fire_per_window 1 0 init
              [3000000000; 6500000000; 7200000000] H1) as (Hwin & _).
  apply (Hwin 1%nat [false; true; true]
           (mkSched (Some PerHour) [] 1 (Some 10800000000) (Some 7200000000))
           eq_refl 1%nat 2%nat); try reflexivity.
  apply Nat.lt_succ_diag_r.
Defined.

(** C3 as stated fails for windows that slide: one jingle per hour
    configured at instant 0, checks at 3000 s, 6500 s and 7200 s, each
    after the one before and less than 3600 s after it.  The checks at
    6500 s and at 7200 s both return True, 700 s apart. *)
Lemma per_hour_two_fires_within_a_period :
  spaced (period_us 1) 0 [3000000000; 6500000000; 7200000000] = true /\
  (exists st',
     run_checks 1 [3000000000; 6500000000; 7200000000]
                (set_per_hour 0 1 init)
     = Ok ([false; true; true], st')) /\
  7200000000 - 6500000000 < period_us 1.
Proof.
  split; [reflexivity|]. split; [|reflexivity].
  eexists. reflexivity.
Qed.

(** ** Fixed clock times *)

Lemma first_due_spec (now : Z) (l : list string) :
  forallb parses l = true ->
  (first_due now l = Ok None /\ Forall (fun V => due now V = false) l) \/
  (exists l1 U l2,
      l = l1 ++ U :: l2 /\
      Forall (fun V => due now V = false) l1 /\
      due now U = true /\
      first_due now l = Ok (Some U)).
Proof.
  induction l as [|s l IH]; intros Hp; simpl.
  - left. split; [reflexivity|constructor].
  - simpl in Hp. apply andb_prop in Hp. destruct Hp as [Hs Hl].
    unfold parses in Hs.
    destruct (strptime_HM s) as [[h m]|] eqn:E; [|discriminate].
    destruct (replace_hm now h m <=? now) eqn:Ed.
    + right. exists [], s, l. repeat split; try constructor.
      unfold due. rewrite E. exact Ed.
    + assert (Hnd : due now s = false) by (unfold due; rewrite E; exact Ed).
      destruct (IH Hl) as [[H1 H2]|(l1 & U & l2 & H1 & H2 & H3 & H4)].
      * left. split; [exact H1|constructor; assumption].
      * right. exists (s :: l1), U, l2. subst l.
        repeat split; try assumption. constructor; assumption.
Qed.

Lemma first_due_In (now : Z) (l : list string) (U : string) :
  first_due now l = Ok (Some U) -> In U l.
Proof.
  induction l as [|s l IH]; simpl; intros H; [discriminate|].
  destruct (strptime_HM s) as [[h m]|]; [|discriminate].
  destruct (replace_hm now h m <=? now).
  - injection H as ->. left; reflexivity.
  - right. apply IH. exact H.
Qed.

Lemma py_remove_first (U : string) (l1 l2 : list string) :
  ~ In U l1 -> py_remove U (l1 ++ U :: l2) = l1 ++ l2.
Proof.
  induction l1 as [|s l1 IH]; intros Hn; simpl.
  - rewrite String.eqb_refl. reflexivity.
  - destruct (String.eqb s U) eqn:E.
    + apply String.eqb_eq in E. exfalso. apply Hn. left. exact E.
    + f_equal. apply IH. intros Hin. apply Hn. right. exact Hin.
Qed.

Lemma py_in_In (x : string) (l : list string) :
  py_in x l = true <-> In x l.
Proof.
  induction l as [|s l IH]; simpl.
  - split; [discriminate|tauto].
  - destruct (String.eqb s x) eqn:E.
    + apply String.eqb_eq in E. split; [left; exact E|reflexivity].
    + apply String.eqb_neq in E. rewrite IH. split; [tauto|].
      intros [H|H]; [contradiction|exact H].
Qed.

(** [l.remove(x)] for [x in l] takes out the first [x] and nothing else. *)
Lemma py_remove_split (x : string) (l : list string) :
  In x l ->
  exists l1 l2,
    l = l1 ++ x :: l2 /\ ~ In x l1 /\ py_remove x l = l1 ++ l2.
Proof.
  induction l as [|s l IH]; intros Hin; [destruct Hin|]. simpl.
  destruct (String.eqb s x) eqn:E.
  - apply String.eqb_eq in E. subst s. exists [], l.
    repeat split. intros [].
  - apply String.eqb_neq in E. destruct Hin as [H|H]; [contradiction|].
    destruct (IH H) as (l1 & l2 & H1 & H2 & H3).
    exists (s :: l1), l2. subst l. rewrite H3.
    repeat split. intros [Hs|Hs]; [contradiction|]. exact (H2 Hs).
Qed.

Lemma py_remove_count (x V : string) (l : list string) :
  (count_occ string_dec (py_remove x l) V <= count_occ string_dec l V)%nat.
Proof.
  induction l as [|s l IH]; simpl; [lia|].
  destruct (String.eqb s x); simpl; destruct (string_dec s V); lia.
Qed.

Lemma py_remove_count_self (x : string) (l : list string) :
  In x l ->
  S (count_occ string_dec (py_remove x l) x) = count_occ string_dec l x.
Proof.
  induction l as [|s l IH]; intros Hin; [destruct Hin|]. simpl.
  destruct (String.eqb s x) eqn:E.
  - apply String.eqb_eq in E. subst s.
    destruct (string_dec x x); [reflexivity|contradiction].
  - apply String.eqb_neq in E. destruct Hin as [H|H]; [contradiction|].
    simpl. destruct (string_dec s x); [contradiction|]. apply IH. exact H.
Qed.

Lemma py_remove_parses (x : string) (l : list string) :
  forallb parses l = true -> forallb parses (py_remove x l) = true.
Proof.
  induction l as [|s l IH]; simpl; intros H; [reflexivity|].
  apply andb_prop in H. destruct H as [Hs Hl].
  destruct (String.eqb s x); [exact Hl|].
  simpl. rewrite Hs, (IH Hl). reflexivity.
Qed.

(** What a check that returns does to the list of times: nothing, or it
    consumes the one entry [fixed_due] names. *)
Lemma should_play_times (fuel : nat) (now : Z) (st : SchedulerState)
  (b : bool) (st' : SchedulerState) :
  should_play_jingle_after_song fuel now st = Ok (b, st') ->
  per_hour st' = per_hour st /\
  ((fixed_due now st = Ok None /\ times st' = times st) \/
   (exists U,
       fixed_due now st = Ok (Some U) /\ b = true /\
       times st' = py_remove U (times st) /\
       next_jingle_time st' = next_jingle_time st /\
       last_jingle_time st' = last_jingle_time st)).
Proof.
  unfold should_play_jingle_after_song.
  destruct (fixed_due now st) as [[U|]| |]; simpl; try discriminate.
  - intros H. injection H as <- <-. simpl. split; [reflexivity|].
    right. exists U. repeat split.
  - intros H.
    assert (per_hour st' = per_hour st /\ times st' = times st);
      [|tauto].
    destruct (mode_eqb (mode st) (Some PerHour) && (0 <? per_hour st));
      [|injection H as <- <-; split; reflexivity].
    destruct (next_jingle_time st) as [next|];
      [|injection H as <- <-; split; reflexivity].
    destruct (next <=? now); [|injection H as <- <-; split; reflexivity].
    destruct (advance_loop fuel now (period_us (per_hour st)) next
                (last_jingle_time st)) as [[next' last']|]; [|discriminate].
    injection H as <- <-. split; reflexivity.
Qed.

Lemma run_checks_count (fuel : nat) (nows : list Z) (V : string) :
  forall (st : SchedulerState) (bs : list bool) (st' : SchedulerState),
    run_checks fuel nows st = Ok (bs, st') ->
    (count_occ string_dec (times st') V
     <= count_occ string_dec (times st) V)%nat.
Proof.
  induction nows as [|now nows IH]; intros st bs st' H; simpl in H.
  - injection H as <- <-. lia.
  - destruct (should_play_jingle_after_song fuel now st)
      as [[b0 st1]| |] eqn:E0; try discriminate. simpl in H.
    destruct (run_checks fuel nows st1) as [[bs1 st2]| |] eqn:E1;
      try discriminate. simpl in H. injection H as <- <-.
    specialize (IH st1 bs1 st2 E1).
    destruct (should_play_times fuel now st b0 st1 E0)
      as (_ & [[_ Ht]|(U & _ & _ & Ht & _)]); rewrite Ht in IH.
    + exact IH.
    + pose proof (py_remove_count U V (times st)). lia.
Qed.

Lemma not_due_not_In (now : Z) (U : string) (l : list string) :
  Forall (fun V => due now V = false) l -> due now U = true -> ~ In U l.
Proof.
  intros Hl HU Hin. rewrite Forall_forall in Hl.
  specialize (Hl U Hin). congruence.
Qed.

(** C2, as amended: while mode is 'times' (add_time was the last call that
    set the mode), a check at an instant where some configured entry T is
    due (its instant today, seconds and microseconds zero, is <= now)
    returns True at once, whatever the fuel, and removes exactly one entry:
    the first due one in configured order, U, which is T itself or comes
    before T (then T stays queued for a later check).  per_hour,
    next_jingle_time and last_jingle_time are not touched.  Later checks
    never add entries, so the number of copies of U only goes down, and
    when U was configured once no later check fires it again. *)
Theorem fixed_time_fires_once (st : SchedulerState) (now : Z) (T : string) :
  mode st = Some Times ->
  forallb parses (times st) = true ->
  In T (times st) ->
  due now T = true ->
  exists l1 U l2,
    times st = l1 ++ U :: l2 /\
    Forall (fun V => due now V = false) l1 /\
    due now U = true /\
    (U = T \/ In T l2) /\
    let st1 :=
      mkSched (if py_empty (l1 ++ l2) && (per_hour st =? 0)
               then None else mode st)
              (l1 ++ l2) (per_hour st)
              (next_jingle_time st) (last_jingle_time st) in
    (forall fuel,
        should_play_jingle_after_song fuel now st = Ok (true, st1)) /\
    S (count_occ string_dec (times st1) U)
    = count_occ string_dec (times st) U /\
    (forall fuel nows bs st2,
        run_checks fuel nows st1 = Ok (bs, st2) ->
        (forall V, (count_occ string_dec (times st2) V
                    <= count_occ string_dec (times st1) V)%nat) /\
        (count_occ string_dec (times st) U = 1%nat ->
         forall now2, fixed_due now2 st2 <> Ok (Some U))).
Proof.
  intros Hm Hp HT Hd.
  destruct (first_due_spec now (times st) Hp)
    as [[_ Hall]|(l1 & U & l2 & Hsplit & Hl1 & HU & Hfd)].
  { rewrite Forall_forall in Hall. specialize (Hall T HT). congruence. }
  pose proof (not_due_not_In now U l1 Hl1 HU) as HnU.
  assert (Hrem : py_remove U (times st) = l1 ++ l2)
    by (rewrite Hsplit; apply py_remove_first; exact HnU).
  exists l1, U, l2.
  split; [exact Hsplit|]. split; [exact Hl1|]. split; [exact HU|]. split.
  { rewrite Hsplit in HT. apply in_app_or in HT.
    destruct HT as [HT|[HT|HT]]; [|left; exact HT|right; exact HT].
    exfalso. exact (not_due_not_In now T l1 Hl1 Hd HT). }
  cbv zeta.
  assert (Hfx : fixed_due now st = Ok (Some U)).
  { unfold fixed_due. rewrite Hm, Hfd. rewrite Hsplit.
    destruct l1; reflexivity. }
  assert (HinU : In U (times st))
    by (rewrite Hsplit; apply in_or_app; right; left; reflexivity).
  split; [|split].
  - intros fuel. unfold should_play_jingle_after_song.
    rewrite Hfx. simpl. rewrite Hrem. reflexivity.
  - simpl. rewrite <- Hrem. apply py_remove_count_self. exact HinU.
  - intros fuel nows bs st2 Hrun. split.
    + intros V. exact (run_checks_count fuel nows V _ bs st2 Hrun).
    + intros Hone now2 Hfire.
      assert (Hin2 : In U (times st2)).
      { unfold fixed_due in Hfire.
        destruct (mode_eqb (mode st2) (Some Times)
                  && negb (py_empty (times st2))); [|discriminate].
        exact (first_due_In now2 _ U Hfire). }
      pose proof (run_checks_count fuel nows U _ bs st2 Hrun) as Hc.
      simpl in Hc.
      pose proof (py_remove_count_self U (times st) HinU) as Hs.
      rewrite Hrem in Hs.
      apply (count_occ_In string_dec) in Hin2. lia.
Qed.

(** The amended C2 on "00:00" added to a fresh scheduler and checked at
    00:05 the same day. *)
Lemma fixed_time_fires_once_witness :
  exists l1 U l2,
    times (snd (add_time "00:00" init)) = l1 ++ U :: l2 /\
    (U = "00:00" \/ In "00:00" l2) /\
    forall fuel,
      should_play_jingle_after_song fuel 300000000
        (snd (add_time "00:00" init))
      = Ok (true,
            mkSched (if py_empty (l1 ++ l2) && (0 =? 0) then None
                     else Some Times)
                    (l1 ++ l2) 0 None None).
Proof.
  destruct (fixed_time_fires_once (snd (add_time "00:00" init))
              300000000 "00:00" eq_refl eq_refl
              (or_introl eq_refl) eq_refl)
    as (l1 & U & l2 & H1 & _ & _ & H2 & H3 & _).
  exists l1, U, l2. split; [exact H1|]. split; [exact H2|exact H3].
Defined.

(** C2 as stated fails when set_per_hour came after add_time: "00:00" is
    configured and due at 00:05, but the mode is 'per_hour', the check
    returns False and the entry stays queued. *)
Lemma fixed_time_not_fired_in_per_hour_mode :
  let st := set_per_hour 0 2 (snd (add_time "00:00" init)) in
  reachable st /\
  In "00:00" (times st) /\
  due 300000000 "00:00" = true /\
  forall fuel,
    should_play_jingle_after_song fuel 300000000 st = Ok (false, st).
Proof.
  cbv zeta. split; [|split; [|split]].
  - apply reach_set_per_hour, reach_add_time, reach_init.
  - left. reflexivity.
  - reflexivity.
  - intros fuel.
    apply (should_play_per_hour_early fuel 300000000 1800000000);
      reflexivity.
Qed.

(** The end-to-end example of the specification: "00:00" added, then two
    checks at 00:05. *)
Example fixed_time_end_to_end :
  run_checks 0 [300000000; 300000001] (snd (add_time "00:00" init))
  = Ok ([true; false], init).
Proof. reflexivity. Qed.

(** ** Invariants of the reachable states *)

Lemma sched_inv_init : sched_inv init.
Proof.
  constructor; simpl; try discriminate; try reflexivity; try lia.
Qed.

Lemma sched_inv_set_per_hour (now n : Z) (st : SchedulerState) :
  sched_inv st -> sched_inv (set_per_hour now n st).
Proof.
  intros [_ _ _ _ _ Hp]. unfold set_per_hour.
  constructor; simpl; destruct (0 <? n) eqn:E;
    try (apply Z.ltb_lt in E); try (apply Z.ltb_ge in E);
    intros; try discriminate; try lia; try reflexivity; try assumption.
  eexists; reflexivity.
Qed.

Lemma sched_inv_add_time (s : string) (st : SchedulerState) :
  sched_inv st -> sched_inv (snd (add_time s st)).
Proof.
  intros Hinv. unfold add_time.
  destruct (strptime_HM s) as [hm|] eqn:E; [|exact Hinv].
  destruct Hinv as [_ _ _ Hn1 Hn2 Hp].
  constructor; simpl; try discriminate; try assumption.
  - intros H. destruct (times st); discriminate.
  - rewrite forallb_app, Hp. simpl. unfold parses. rewrite E. reflexivity.
Qed.

Lemma sched_inv_consume (ts : list string) (st : SchedulerState) :
  sched_inv st ->
  forallb parses ts = true ->
  sched_inv (mkSched (if py_empty ts && (per_hour st =? 0)
                      then None else mode st)
                     ts (per_hour st)
                     (next_jingle_time st) (last_jingle_time st)).
Proof.
  intros [H1 H2 H3 H4 H5 _] Hts.
  destruct ts as [|t ts]; simpl py_empty; simpl andb.
  - destruct (per_hour st =? 0) eqn:E.
    + apply Z.eqb_eq in E.
      constructor; simpl; try assumption; try discriminate.
      * reflexivity.
      * intros _. lia.
    + apply Z.eqb_neq in E.
      constructor; simpl; try assumption.
      intros _ Hz. contradiction.
  - constructor; simpl; try assumption. discriminate.
Qed.

Lemma sched_inv_remove_time (s : string) (st : SchedulerState) :
  sched_inv st -> sched_inv (remove_time s st).
Proof.
  intros Hinv. unfold remove_time. apply sched_inv_consume; [exact Hinv|].
  destruct (py_in s (times st)).
  - apply py_remove_parses. exact (inv_parses st Hinv).
  - exact (inv_parses st Hinv).
Qed.

Lemma sched_inv_should_play (fuel : nat) (now : Z) (st : SchedulerState)
  (b : bool) (st' : SchedulerState) :
  sched_inv st ->
  should_play_jingle_after_song fuel now st = Ok (b, st') ->
  sched_inv st'.
Proof.
  intros Hinv. unfold should_play_jingle_after_song.
  destruct (fixed_due now st) as [[U|]| |]; simpl; try discriminate.
  - intros H. injection H as <- <-. apply sched_inv_consume; [exact Hinv|].
    apply py_remove_parses. exact (inv_parses st Hinv).
  - destruct (mode_eqb (mode st) (Some PerHour) && (0 <? per_hour st));
      [|intros H; injection H as <- <-; exact Hinv].
    destruct (next_jingle_time st) as [next|] eqn:En;
      [|intros H; injection H as <- <-; exact Hinv].
    destruct (next <=? now); [|intros H; injection H as <- <-; exact Hinv].
    destruct (advance_loop fuel now (period_us (per_hour st)) next
                (last_jingle_time st)) as [[next' last']|]; [|discriminate].
    intros H. injection H as <- <-.
    destruct Hinv as [H1 H2 H3 H4 H5 H6].
    constructor; simpl; try assumption.
    + intros _. eexists; reflexivity.
    + intros Hle. specialize (H5 Hle). congruence.
Qed.

Lemma reachable_inv (st : SchedulerState) : reachable st -> sched_inv st.
Proof.
  induction 1 as [|now n st _ IH|s st _ IH|s st _ IH
                  |fuel now st b st' _ IH Hcall].
  - exact sched_inv_init.
  - exact (sched_inv_set_per_hour now n st IH).
  - exact (sched_inv_add_time s st IH).
  - exact (sched_inv_remove_time s st IH).
  - exact (sched_inv_should_play fuel now st b st' IH Hcall).
Qed.

(** In a reachable state no entry fails to parse, so a check never
    raises. *)
Lemma reachable_no_raise (st : SchedulerState) (fuel : nat) (now : Z) (e : exn) :
  reachable st -> should_play_jingle_after_song fuel now st <> Raise e.
Proof.
  intros Hr. pose proof (inv_parses st (reachable_inv st Hr)) as Hp.
  unfold should_play_jingle_after_song, fixed_due.
  destruct (mode_eqb (mode st) (Some Times) && negb (py_empty (times st))).
  - destruct (first_due_spec now (times st) Hp)
      as [[-> _]|(l1 & U & l2 & _ & _ & _ & ->)]; simpl; [|discriminate].
    destruct (mode_eqb (mode st) (Some PerHour) && (0 <? per_hour st));
      [|discriminate].
    destruct (next_jingle_time st) as [next|]; [|discriminate].
    destruct (next <=? now); [|discriminate].
    destruct (advance_loop fuel now (period_us (per_hour st)) next
                (last_jingle_time st)) as [[? ?]|]; discriminate.
  - simpl.
    destruct (mode_eqb (mode st) (Some PerHour) && (0 <? per_hour st));
      [|discriminate].
    destruct (next_jingle_time st) as [next|]; [|discriminate].
    destruct (next <=? now); [|discriminate].
    destruct (advance_loop fuel now (period_us (per_hour st)) next
                (last_jingle_time st)) as [[? ?]|]; discriminate.
Qed.

(** ** The mode flag *)

(** C4, as amended: every state the operations set_per_hour, add_time,
    remove_time and should_play_jingle_after_song can produce satisfies:
    mode is 'per_hour' only if per_hour > 0 (not conversely: add_time sets
    mode to 'times' whatever per_hour is); whenever times is empty and
    per_hour is 0 the mode is None; and mode is None only if per_hour is
    not positive. *)
Theorem mode_invariant (st : SchedulerState) :
  reachable st ->
  (mode st = Some PerHour -> 0 < per_hour st) /\
  (times st = [] -> per_hour st = 0 -> mode st = None) /\
  (mode st = None -> per_hour st <= 0).
Proof.
  intros Hr. destruct (reachable_inv st Hr) as [H1 H2 H3 _ _ _].
  split; [exact H1|]. split; [exact H2|exact H3].
Qed.

(** The amended C4 on the state after set_per_hour(3), add_time("10:00")
    and remove_time("10:00"). *)
Lemma mode_invariant_witness :
  let st := remove_time "10:00"
              (snd (add_time "10:00" (set_per_hour 0 3 init))) in
  reachable st /\
  (mode st = Some PerHour -> 0 < per_hour st) /\
  (times st = [] -> per_hour st = 0 -> mode st = None) /\
  (mode st = None -> per_hour st <= 0).
Proof.
  cbv zeta.
  assert (Hr : reachable (remove_time "10:00"
                  (snd (add_time "10:00" (set_per_hour 0 3 init)))))
    by (apply reach_remove_time, reach_add_time, reach_set_per_hour,
          reach_init).
  split; [exact Hr|]. exact (mode_invariant _ Hr).
Defined.

(** C4 as stated fails after set_per_hour(3) followed by
    add_time("10:00"): per_hour is 3 and the mode is 'times', not
    'per_hour'. *)
Lemma mode_times_while_per_hour_positive :
  let st := snd (add_time "10:00" (set_per_hour 0 3 init)) in
  reachable st /\ 0 < per_hour st /\ mode st = Some Times /\
  mode st <> Some PerHour.
Proof.
  cbv zeta. split; [|split; [|split]].
  - apply reach_add_time, reach_set_per_hour, reach_init.
  - reflexivity.
  - reflexivity.
  - discriminate.
Qed.

(** set_per_hour(0) resets the mode without looking at times, unlike
    remove_time and the fixed-time branch of the check: a queued time is
    left with mode None and no check fires it. *)
Lemma set_per_hour_zero_with_queued_time :
  let st := set_per_hour 0 0 (snd (add_time "10:00" init)) in
  reachable st /\ mode st = None /\ times st = ["10:00"] /\
  forall fuel now, should_play_jingle_after_song fuel now st = Ok (false, st).
Proof.
  cbv zeta. split; [|split; [|split]].
  - apply reach_set_per_hour, reach_add_time, reach_init.
  - reflexivity.
  - reflexivity.
  - intros fuel now. reflexivity.
Qed.

(** ** remove_time *)

(** C9: in every reachable state, remove_time of a literal that is not in
    times changes nothing at all (when times is empty and per_hour is 0 the
    mode is None already); of a literal that is in times, it takes out the
    first occurrence and no other entry, and leaves per_hour,
    next_jingle_time and last_jingle_time alone. *)
Theorem remove_time_frame (st : SchedulerState) (s : string) :
  reachable st ->
  (~ In s (times st) -> remove_time s st = st) /\
  (In s (times st) ->
   exists l1 l2,
     times st = l1 ++ s :: l2 /\ ~ In s l1 /\
     times (remove_time s st) = l1 ++ l2 /\
     per_hour (remove_time s st) = per_hour st /\
     next_jingle_time (remove_time s st) = next_jingle_time st /\
     last_jingle_time (remove_time s st) = last_jingle_time st).
Proof.
  intros Hr. pose proof (inv_idle st (reachable_inv st Hr)) as Hidle.
  split.
  - intros Hn. unfold remove_time.
    destruct (py_in s (times st)) eqn:E;
      [apply py_in_In in E; contradiction|].
    destruct st as [md ts ph nx la]. simpl in *. f_equal.
    destruct ts as [|t ts]; [|reflexivity]. simpl.
    destruct (ph =? 0) eqn:Ez; [|reflexivity].
    apply Z.eqb_eq in Ez. symmetry. exact (Hidle eq_refl Ez).
  - intros Hin. destruct (py_remove_split s (times st) Hin)
      as (l1 & l2 & H1 & H2 & H3).
    exists l1, l2. unfold remove_time.
    apply py_in_In in Hin. rewrite Hin. simpl. rewrite H3.
    repeat split; assumption.
Qed.

(** C9 on the state after add_time("10:00"), add_time("11:00"),
    add_time("10:00"): "12:00" is absent, "10:00" is there twice. *)
Lemma remove_time_frame_witness :
  let st := snd (add_time "10:00"
              (snd (add_time "11:00" (snd (add_time "10:00" init))))) in
  remove_time "12:00" st = st /\
  exists l1 l2,
    times st = l1 ++ "10:00" :: l2 /\ ~ In "10:00" l1 /\
    times (remove_time "10:00" st) = l1 ++ l2.
Proof.
  cbv zeta.
  assert (Hr : reachable (snd (add_time "10:00"
                  (snd (add_time "11:00" (snd (add_time "10:00" init)))))))
    by (apply reach_add_time, reach_add_time, reach_add_time, reach_init).
  split.
  - apply (remove_time_frame _ "12:00" Hr).
    simpl. intros [H|[H|[H|[]]]]; discriminate.
  - destruct (proj2 (remove_time_frame _ "10:00" Hr))
      as (l1 & l2 & H1 & H2 & H3 & _).
    + left. reflexivity.
    + exists l1, l2. split; [exact H1|]. split; [exact H2|exact H3].
Defined.

(** ** The last fixed time and the per-hour schedule *)

(** C10: when the only entry of times is due and fires while per_hour > 0,
    the mode stays 'times' with an empty list; from then on every check
    returns False and changes nothing, whatever the instant and however
    late, and remove_time changes nothing either; per_hour is still
    positive and, in a reachable state, next_jingle_time is still set.  A
    later set_per_hour(n), n > 0, puts the mode back to 'per_hour', a later
    successful add_time queues a time again. *)
Theorem per_hour_blocked_after_last_fixed_fire
  (st : SchedulerState) (now : Z) (T : string) :
  mode st = Some Times ->
  times st = [T] ->
  due now T = true ->
  0 < per_hour st ->
  let st1 := mkSched (Some Times) [] (per_hour st)
                     (next_jingle_time st) (last_jingle_time st) in
  (forall fuel, should_play_jingle_after_song fuel now st = Ok (true, st1)) /\
  (forall fuel nows,
      run_checks fuel nows st1 = Ok (repeat false (List.length nows), st1)) /\
  (forall s, remove_time s st1 = st1) /\
  (reachable st -> exists d, next_jingle_time st1 = Some d) /\
  (forall t n, 0 < n -> mode (set_per_hour t n st1) = Some PerHour) /\
  (forall s, parses s = true ->
             mode (snd (add_time s st1)) = Some Times /\
             times (snd (add_time s st1)) = [s]).
Proof.
  intros Hm Ht Hd Hph st1.
  assert (Hz : (per_hour st =? 0) = false) by (apply Z.eqb_neq; lia).
  assert (Hquiet : forall fuel now',
             should_play_jingle_after_song fuel now' st1 = Ok (false, st1))
    by (intros; reflexivity).
  split; [|split; [|split; [|split; [|split]]]].
  - intros fuel. unfold should_play_jingle_after_song, fixed_due.
    rewrite Hm, Ht. simpl. unfold due in Hd.
    destruct (strptime_HM T) as [[h m]|]; [|discriminate].
    rewrite Hd. simpl. rewrite String.eqb_refl. simpl. rewrite Hz.
    reflexivity.
  - intros fuel nows. induction nows as [|t nows IH].
    + reflexivity.
    + cbn [run_checks]. rewrite Hquiet. cbn [bind fst snd].
      rewrite IH. reflexivity.
  - intros s. unfold remove_time, st1. simpl. rewrite Hz. reflexivity.
  - intros Hr. exact (inv_next_set st (reachable_inv st Hr) Hph).
  - intros t n Hn. unfold set_per_hour. simpl.
    replace (0 <? n) with true by (symmetry; apply Z.ltb_lt; lia).
    reflexivity.
  - intros s Hs. unfold add_time, parses in *.
    destruct (strptime_HM s); [|discriminate]. split; reflexivity.
Qed.

(** C10 on two jingles per hour set at instant 0, then "00:00" added, and
    the check at 00:05: after it, checks an hour, two hours and a day later
    all return False. *)
Lemma per_hour_blocked_after_last_fixed_fire_witness :
  let st := snd (add_time "00:00" (set_per_hour 0 2 init)) in
  let st1 := mkSched (Some Times) [] 2 (Some 1800000000) (Some 0) in
  should_play_jingle_after_song 0 300000000 st = Ok (true, st1) /\
  run_checks 0 [3600000000; 7200000000; 86400000000] st1
  = Ok ([false; false; false], st1).
Proof.
  cbv zeta.
  destruct (per_hour_blocked_after_last_fixed_fire
              (snd (add_time "00:00" (set_per_hour 0 2 init)))
              300000000 "00:00" eq_refl eq_refl eq_refl eq_refl)
    as (Hfire & Hrun & _).
  split.
  - exact (Hfire 0%nat).
  - exact (Hrun 0%nat [3600000000; 7200000000; 86400000000]).
Defined.

(** ** add_time *)

Lemma digit_of_range (c : ascii) (a : Z) :
  digit_of c = Some a -> 0 <= a <= 9.
Proof.
  unfold digit_of.
  destruct ((48 <=? Z.of_nat (nat_of_ascii c))
            && (Z.of_nat (nat_of_ascii c) <=? 57)) eqn:E; [|discriminate].
  apply andb_prop in E. destruct E as [E1 E2].
  apply Z.leb_le in E1, E2. intros H. injection H as <-. lia.
Qed.

Lemma parse_minute_range (s : string) (m : Z) :
  parse_minute s = Some m -> 0 <= m <= 59.
Proof.
  unfold parse_minute.
  destruct s as [|m1 [|m2 [|? ?]]]; try discriminate.
  - intros H. apply digit_of_range in H. lia.
  - destruct (digit_of m1) as [a|] eqn:Ea; [|discriminate].
    destruct (digit_of m2) as [b|] eqn:Eb; [|discriminate].
    apply digit_of_range in Ea, Eb.
    destruct (a <=? 5) eqn:E5; [|discriminate].
    apply Z.leb_le in E5. intros H.
    assert (Hm : m = 10 * a + b) by congruence. lia.
Qed.

Lemma parse_hour_colon_range (s : string) (h : Z) (rest : string) :
  parse_hour_colon s = Some (h, rest) -> 0 <= h <= 23.
Proof.
  unfold parse_hour_colon.
  destruct s as [|h1 [|h2 [|c r]]]; try discriminate.
  - destruct (digit_of h1) as [a|] eqn:Ea; [|discriminate].
    apply digit_of_range in Ea.
    destruct (is_colon h2); [|discriminate].
    intros H. assert (Hh : h = a) by congruence. lia.
  - destruct (digit_of h1) as [a|] eqn:Ea; [|discriminate].
    apply digit_of_range in Ea.
    assert (Hone : (if is_colon h2 then Some (a, String c r) else None)
                   = Some (h, rest) -> 0 <= h <= 23).
    { destruct (is_colon h2); [|discriminate].
      intros H. assert (Hh : h = a) by congruence. lia. }
    destruct (digit_of h2) as [b|] eqn:Eb; [|exact Hone].
    apply digit_of_range in Eb.
    destruct (is_colon c && ((a =? 2) && (b <=? 3) || (a <=? 1))) eqn:E;
      [|exact Hone].
    apply andb_prop in E. destruct E as [_ E].
    apply orb_prop in E. intros H.
    assert (Hh : h = 10 * a + b) by congruence.
    destruct E as [E|E].
    + apply andb_prop in E. destruct E as [E1 E2].
      apply Z.eqb_eq in E1. apply Z.leb_le in E2. lia.
    + apply Z.leb_le in E. lia.
Qed.

(** C6: add_time of a string that strptime rejects returns False and the
    state is exactly as before; of a string that parses (to an hour in
    0..23 and a minute in 0..59) it returns True, the string is appended at
    the end of times, mode is 'times', and per_hour, next_jingle_time and
    last_jingle_time are as before. *)
Theorem add_time_result (timestr : string) (st : SchedulerState) :
  match strptime_HM timestr with
  | None => add_time timestr st = (false, st)
  | Some (h, m) =>
      0 <= h <= 23 /\ 0 <= m <= 59 /\
      add_time timestr st =
      (true, mkSched (Some Times) (times st ++ [timestr]) (per_hour st)
                     (next_jingle_time st) (last_jingle_time st))
  end.
Proof.
  unfold add_time.
  destruct (strptime_HM timestr) as [[h m]|] eqn:E; [|reflexivity].
  unfold strptime_HM in E.
  destruct (parse_hour_colon timestr) as [[h' rest]|] eqn:Eh; [|discriminate].
  destruct (parse_minute rest) as [m'|] eqn:Em; [|discriminate].
  injection E as <- <-.
  split; [exact (parse_hour_colon_range _ _ _ Eh)|].
  split; [exact (parse_minute_range _ _ Em)|reflexivity].
Qed.

Example add_time_rejects :
  add_time "24:00" init = (false, init) /\
  add_time "12:60" init = (false, init) /\
  add_time "noon" init = (false, init) /\
  add_time "12:30 " init = (false, init).
Proof. repeat split. Qed.

Example add_time_accepts :
  add_time "7:05" (set_per_hour 0 2 init)
  = (true, mkSched (Some Times) ["7:05"] 2 (Some 1800000000) (Some 0)).
Proof. reflexivity. Qed.

(** ** The cursor and the play of the current song *)

Lemma len_pos {A} (l : list A) : l <> [] -> 0 < len l.
Proof. destruct l; [contradiction|]. intros _. unfold len. simpl. lia. Qed.

Lemma py_empty_false {A} (l : list A) : l <> [] -> py_empty l = false.
Proof. destruct l; [contradiction|reflexivity]. Qed.

Lemma py_getitem_in_range (l : list string) (i : Z) :
  0 <= i < len l -> py_getitem l i = Ok (nth (Z.to_nat i) l "").
Proof.
  intros [H0 H1]. unfold py_getitem.
  replace (0 <=? i) with true by (symmetry; apply Z.leb_le; lia).
  replace (i <? len l) with true by (symmetry; apply Z.ltb_lt; lia).
  reflexivity.
Qed.

Lemma _advance_index_empty (a : App) :
  playlist a = [] -> _advance_index a = a.
Proof. intros E. unfold _advance_index. rewrite E. reflexivity. Qed.

Lemma _advance_index_step (a : App) :
  playlist a <> [] ->
  _advance_index a
  = with_index ((play_index a + 1) mod len (playlist a)) a.
Proof.
  intros E. unfold _advance_index. rewrite (py_empty_false _ E).
  reflexivity.
Qed.

Lemma _advance_index_ok (a : App) :
  cursor_ok (_advance_index a) /\
  playlist (_advance_index a) = playlist a /\
  scheduler (_advance_index a) = scheduler a /\
  calls (_advance_index a) = calls a /\
  playing_jingle (_advance_index a) = playing_jingle a /\
  jplayer (_advance_index a) = jplayer a /\
  (playlist a = [] -> _advance_index a = a) /\
  (playlist a <> [] ->
   play_index (_advance_index a) = (play_index a + 1) mod len (playlist a)).
Proof.
  destruct (list_eq_dec string_dec (playlist a) []) as [E|E].
  - rewrite (_advance_index_empty a E).
    repeat split; try reflexivity.
    + left. exact E.
    + intros H. contradiction.
  - rewrite (_advance_index_step a E).
    repeat split; try reflexivity; try contradiction.
    right. simpl. apply Z.mod_pos_bound. apply len_pos. exact E.
Qed.

Lemma _play_current_song_empty (a : App) :
  playlist a = [] -> _play_current_song a = Ok a.
Proof. intros E. unfold _play_current_song. rewrite E. reflexivity. Qed.

Lemma _play_current_song_in_range (a : App) :
  0 <= play_index a < len (playlist a) ->
  _play_current_song a
  = Ok (with_calls
          [MainSetMedia (nth (Z.to_nat (play_index a)) (playlist a) "");
           MainPlay] a).
Proof.
  intros H. unfold _play_current_song.
  assert (E : playlist a <> [])
    by (intros E; rewrite E in H; unfold len in H; simpl in H; lia).
  rewrite (py_empty_false _ E), (py_getitem_in_range _ _ H). reflexivity.
Qed.

Lemma _play_current_song_ok (a : App) :
  cursor_ok a ->
  exists a',
    _play_current_song a = Ok a' /\
    playlist a' = playlist a /\ play_index a' = play_index a /\
    scheduler a' = scheduler a /\
    playing_jingle a' = playing_jingle a /\ jplayer a' = jplayer a /\
    (playlist a = [] -> a' = a) /\
    (playlist a <> [] -> plays_current a a').
Proof.
  intros [E|H].
  - exists a. split; [exact (_play_current_song_empty a E)|].
    repeat split; try reflexivity. intros Hne. contradiction.
  - eexists. split; [exact (_play_current_song_in_range a H)|].
    repeat split; try reflexivity.
    intros E. rewrite E in H. unfold len in H. simpl in H. lia.
Qed.

(** A stale cursor does make [_play_current_song] fail: the callers are
    what keeps it inside the list. *)
Example _play_current_song_stale_cursor :
  _play_current_song (mkApp ["a.mp3"; "b.mp3"] [] 5 init false None [])
  = Raise IndexError.
Proof. reflexivity. Qed.

Lemma stop_active_jingle_frame (a : App) :
  playlist (stop_active_jingle a) = playlist a /\
  play_index (stop_active_jingle a) = play_index a /\
  scheduler (stop_active_jingle a) = scheduler a.
Proof.
  unfold stop_active_jingle.
  destruct (jplayer a); [destruct (playing_jingle a)|]; repeat split.
Qed.

Lemma play_next_ok (a : App) :
  exists a',
    play_next a = Ok a' /\
    cursor_ok a' /\
    playlist a' = playlist a /\
    scheduler a' = scheduler a /\
    (playlist a = [] -> play_index a' = play_index a) /\
    (playlist a <> [] ->
     play_index a' = (play_index a + 1) mod len (playlist a) /\
     plays_current (stop_active_jingle a) a').
Proof.
  unfold play_next.
  destruct (stop_active_jingle_frame a) as (Hp & Hi & Hs).
  destruct (_advance_index_ok (stop_active_jingle a))
    as (Hc & Hp1 & Hs1 & Hcalls1 & _ & _ & He1 & Hn1).
  destruct (_play_current_song_ok _ Hc)
    as (a' & Hplay & Hp2 & Hi2 & Hs2 & _ & _ & He2 & Hn2).
  exists a'. split; [exact Hplay|].
  split.
  { unfold cursor_ok in *. rewrite Hp2, Hi2. exact Hc. }
  split; [congruence|]. split; [congruence|]. split.
  - intros E. rewrite Hi2, He1 by congruence. exact Hi.
  - intros E. rewrite Hi2, Hn1, Hp, Hi by congruence.
    split; [reflexivity|].
    assert (Hne : playlist (_advance_index (stop_active_jingle a)) <> [])
      by congruence.
    specialize (Hn2 Hne). unfold plays_current in *.
    rewrite Hn2, Hcalls1. reflexivity.
Qed.

(** The handler play_next taken by itself, while a jingle is playing
    (the jingle player exists and playing_jingle is set): it returns
    normally; it stops the jingle player and drops it, clears
    playing_jingle, leaves the scheduler state alone, and moves the cursor
    to (play_index + 1) mod len(playlist), which is inside the list, then
    loads and plays the song there; with an empty playlist the cursor
    stays and nothing is loaded.  What the monitor does next is in
    next_during_jingle_skips_a_song. *)
Theorem play_next_during_jingle (a : App) (j : string) :
  jplayer a = Some j ->
  playing_jingle a = true ->
  exists a',
    play_next a = Ok a' /\
    playing_jingle a' = false /\
    jplayer a' = None /\
    scheduler a' = scheduler a /\
    playlist a' = playlist a /\
    (playlist a = [] ->
     play_index a' = play_index a /\
     calls a' = calls a ++ [JingleStop]) /\
    (playlist a <> [] ->
     play_index a' = (play_index a + 1) mod len (playlist a) /\
     0 <= play_index a' < len (playlist a) /\
     calls a' =
     calls a
     ++ [JingleStop;
         MainSetMedia (nth (Z.to_nat (play_index a')) (playlist a) "");
         MainPlay]).
Proof.
  intros Hj Hp.
  assert (Hstop : stop_active_jingle a
                  = with_calls [JingleStop] (with_jingle false None a))
    by (unfold stop_active_jingle; rewrite Hj, Hp; reflexivity).
  unfold play_next. rewrite Hstop.
  set (a1 := with_calls [JingleStop] (with_jingle false None a)).
  destruct (_advance_index_ok a1)
    as (Hc & Hp1 & Hs1 & Hcalls1 & Hpj1 & Hjp1 & He1 & Hn1).
  destruct (_play_current_song_ok _ Hc)
    as (a' & Hplay & Hp2 & Hi2 & Hs2 & Hpj2 & Hjp2 & He2 & Hn2).
  exists a'. split; [exact Hplay|].
  split; [rewrite Hpj2, Hpj1; reflexivity|].
  split; [rewrite Hjp2, Hjp1; reflexivity|].
  split; [rewrite Hs2, Hs1; reflexivity|].
  split; [rewrite Hp2, Hp1; reflexivity|].
  split.
  - intros E.
    assert (E1 : playlist a1 = []) by exact E.
    rewrite (He2 ltac:(congruence)), (He1 E1).
    split; reflexivity.
  - intros E.
    assert (E1 : playlist a1 <> []) by exact E.
    assert (Hidx : play_index a'
                   = (play_index a + 1) mod len (playlist a))
      by (rewrite Hi2, (Hn1 E1); reflexivity).
    split; [exact Hidx|]. split.
    + rewrite Hidx. apply Z.mod_pos_bound. apply len_pos. exact E.
    + specialize (Hn2 ltac:(congruence)). unfold plays_current in Hn2.
      rewrite Hn2, Hcalls1, Hp2, Hp1. unfold a1. simpl.
      rewrite <- app_assoc. reflexivity.
Qed.

(** play_next by itself on a playlist of three songs with the cursor on
    the last one. *)
Lemma play_next_during_jingle_witness :
  exists a',
    play_next (mkApp ["a.mp3"; "b.mp3"; "c.mp3"] ["j.mp3"] 2 init
                     true (Some "j.mp3") [])
    = Ok a' /\
    play_index a' = (2 + 1) mod 3 /\
    calls a' = [JingleStop; MainSetMedia "a.mp3"; MainPlay].
Proof.
  destruct (play_next_during_jingle
              (mkApp ["a.mp3"; "b.mp3"; "c.mp3"] ["j.mp3"] 2 init
                     true (Some "j.mp3") [])
              "j.mp3" eq_refl eq_refl)
    as (a' & Hnext & _ & _ & _ & _ & _ & Hne).
  destruct (Hne ltac:(discriminate)) as (Hi & _ & Hc).
  exists a'. split; [exact Hnext|]. split; [exact Hi|].
  rewrite Hc, Hi. reflexivity.
Defined.

(** The wrap-around of the specification: three songs, position 2, one
    advance. *)
Example _advance_index_wraps :
  play_index (_advance_index
                (mkApp ["a.mp3"; "b.mp3"; "c.mp3"] [] 2 init false None []))
  = 0.
Proof. reflexivity. Qed.

(** ** Every play of the current song finds the cursor inside the list *)








(** ** Error states of the external player *)

(** C5, what the code does: the wait for a jingle ends on Error exactly as
    on Ended, and the monitor then advances and plays the next song; but
    one iteration of the monitor loop that reads Error from the main
    player does nothing at all, where on Ended it advances the cursor and
    plays the next song.  The loop goes on in both cases. *)
Theorem monitor_ignores_main_error :
  (forall fuel now pick evs a,
      monitor_iteration Error fuel now pick evs a = Ok a) /\
  (let a := mkApp ["a.mp3"; "b.mp3"] [] 0 init false None [] in
   monitor_iteration Ended 0 0 0 [] a
   = Ok (mkApp ["a.mp3"; "b.mp3"] [] 1 init false None
               [MainSetMedia "b.mp3"; MainPlay])) /\
  (forall evs a,
      playing_jingle a = true ->
      jingle_wait (Poll Error :: evs) a = Ok a /\
      jingle_wait (Poll Ended :: evs) a = Ok a) /\
  (let a := mkApp ["a.mp3"; "b.mp3"] ["j.mp3"] 0
                  (snd (add_time "00:00" init)) false None [] in
   monitor_iteration Ended 0 300000000 0 [Poll Playing; Poll Error] a
   = Ok (mkApp ["a.mp3"; "b.mp3"] ["j.mp3"] 1 init false None
               [JingleSetMedia "j.mp3"; JinglePlay;
                MainSetMedia "b.mp3"; MainPlay]) /\
   monitor_iteration Ended 0 300000000 0 [Poll Playing; Poll Error] a
   = monitor_iteration Ended 0 300000000 0 [Poll Playing; Poll Ended] a).
Proof.
  split; [|split; [|split]].
  - intros. reflexivity.
  - reflexivity.
  - intros evs a Hp. simpl. rewrite Hp. split; reflexivity.
  - split; reflexivity.
Qed.

(** C7, what the code does: a jingle is actively playing only while the
    monitor is inside the wait of _play_jingle_once.  Next pressed there
    does its part (the jingle player is stopped and dropped, no check of
    the scheduler, the cursor one row on, that song loaded and played),
    but it also ends the monitor's wait, and the monitor then runs its own
    _advance_index and _play_current_song: the cursor ends two rows on,
    modulo the length, and the song that Next started is replaced at
    once.  With three songs and the cursor on the first, Next during the
    jingle leaves the cursor on the third; with two songs it is back on
    the song that had just ended. *)
Theorem next_during_jingle_skips_a_song :
  play_next
    (mkApp ["a.mp3"; "b.mp3"; "c.mp3"] ["j.mp3"] 0 init true (Some "j.mp3")
           [JingleSetMedia "j.mp3"; JinglePlay])
  = Ok (mkApp ["a.mp3"; "b.mp3"; "c.mp3"] ["j.mp3"] 1 init false None
              [JingleSetMedia "j.mp3"; JinglePlay; JingleStop;
               MainSetMedia "b.mp3"; MainPlay]) /\
  monitor_iteration Ended 0 300000000 0 [Poll Playing; PressNext]
    (mkApp ["a.mp3"; "b.mp3"; "c.mp3"] ["j.mp3"] 0
           (snd (add_time "00:00" init)) false None [])
  = Ok (mkApp ["a.mp3"; "b.mp3"; "c.mp3"] ["j.mp3"] 2 init false None
              [JingleSetMedia "j.mp3"; JinglePlay; JingleStop;
               MainSetMedia "b.mp3"; MainPlay;
               MainSetMedia "c.mp3"; MainPlay]) /\
  monitor_iteration Ended 0 300000000 0 [Poll Playing; PressNext]
    (mkApp ["a.mp3"; "b.mp3"] ["j.mp3"] 0
           (snd (add_time "00:00" init)) false None [])
  = Ok (mkApp ["a.mp3"; "b.mp3"] ["j.mp3"] 0 init false None
              [JingleSetMedia "j.mp3"; JinglePlay; JingleStop;
               MainSetMedia "b.mp3"; MainPlay;
               MainSetMedia "a.mp3"; MainPlay]).
Proof. repeat split. Qed.

(** The end-to-end example of the specification: two jingles per hour set
    at t0 = 0, two jingles in the pool, songs ending at t0, t0 + 1700 s and
    t0 + 1800 s: no jingle at the first two, a jingle at the third, and the
    cursor advances after each. *)
Example per_hour_end_to_end :
  let a0 := mkApp ["a.mp3"; "b.mp3"] ["j1.mp3"; "j2.mp3"] 0
                  (set_per_hour 0 2 init) false None [] in
  (a1 <- monitor_iteration Ended 1 0 0 [] a0 ;;
   a2 <- monitor_iteration Ended 1 1700000000 0 [] a1 ;;
   monitor_iteration Ended 1 1800000000 1 [Poll Playing; Poll Ended] a2)
  = Ok (mkApp ["a.mp3"; "b.mp3"] ["j1.mp3"; "j2.mp3"] 1
              (mkSched (Some PerHour) [] 2 (Some 3600000000)
                       (Some 1800000000))
              false None
              [MainSetMedia "b.mp3"; MainPlay;
               MainSetMedia "a.mp3"; MainPlay;
               JingleSetMedia "j2.mp3"; JinglePlay;
               MainSetMedia "b.mp3"; MainPlay]).
Proof. reflexivity. Qed.

(** * Further properties of the code *)

(** ** Sorting the selected rows *)

Lemma insert_sorted_perm (x : Z) (l : list Z) :
  Permutation (insert_sorted x l) (x :: l).
Proof.
  induction l as [|y l IH]; simpl.
  - apply Permutation_refl.
  - destruct (x <=? y).
    + apply Permutation_refl.
    + apply perm_trans with (y :: x :: l).
      * apply perm_skip. exact IH.
      * apply perm_swap.
Qed.

Lemma sorted_perm (l : list Z) : Permutation (sorted l) l.
Proof.
  induction l as [|x l IH]; simpl.
  - apply perm_nil.
  - apply perm_trans with (x :: sorted l).
    + apply insert_sorted_perm.
    + apply perm_skip. exact IH.
Qed.

Lemma insert_sorted_lt (x : Z) (l : list Z) :
  StronglySorted Z.lt l -> ~ In x l ->
  StronglySorted Z.lt (insert_sorted x l).
Proof.
  induction l as [|y l IH]; intros Hs Hn; simpl.
  - constructor; constructor.
  - inversion Hs as [|? ? Hs' Hall]; subst.
    destruct (x <=? y) eqn:E.
    + apply Z.leb_le in E.
      assert (Hxy : x < y).
      { destruct (Z.eq_dec x y) as [->|Hne]; [|lia].
        exfalso. apply Hn. left. reflexivity. }
      constructor; [exact Hs|]. constructor; [exact Hxy|].
      rewrite Forall_forall in *. intros z Hz. specialize (Hall z Hz). lia.
    + apply Z.leb_gt in E. constructor.
      * apply IH; [exact Hs'|]. intros Hin. apply Hn. right. exact Hin.
      * rewrite Forall_forall in *. intros z Hz.
        apply (Permutation_in _ (insert_sorted_perm x l)) in Hz.
        destruct Hz as [<-|Hz]; [exact E|exact (Hall z Hz)].
Qed.

Lemma sorted_lt (l : list Z) : NoDup l -> StronglySorted Z.lt (sorted l).
Proof.
  induction 1 as [|x l Hn _ IH]; simpl.
  - constructor.
  - apply insert_sorted_lt; [exact IH|].
    intros Hin. apply Hn.
    exact (Permutation_in _ (sorted_perm l) Hin).
Qed.

Lemma sorted_In (l : list Z) (x : Z) : In x (sorted l) <-> In x l.
Proof.
  split; intros H.
  - exact (Permutation_in _ (sorted_perm l) H).
  - exact (Permutation_in _ (Permutation_sym (sorted_perm l)) H).
Qed.

Lemma snoc_gt (l : list Z) (x : Z) :
  StronglySorted Z.gt l -> Forall (fun y => y > x) l ->
  StronglySorted Z.gt (l ++ [x]).
Proof.
  induction l as [|y l IH]; intros Hs Hall; simpl.
  - constructor; constructor.
  - inversion Hs as [|? ? Hs' Hy]; subst.
    inversion Hall as [|? ? Hyx Hall']; subst.
    constructor; [apply IH; assumption|].
    apply Forall_app. split; [exact Hy|]. constructor; [exact Hyx|constructor].
Qed.

Lemma sorted_reverse_gt (l : list Z) :
  NoDup l -> StronglySorted Z.gt (sorted_reverse l).
Proof.
  intros Hn. unfold sorted_reverse.
  pose proof (sorted_lt l Hn) as Hs.
  induction Hs as [|x s Hs IH Hall]; simpl.
  - constructor.
  - apply snoc_gt; [exact IH|].
    rewrite Forall_forall in *. intros y Hy. apply in_rev in Hy.
    specialize (Hall y Hy). lia.
Qed.

Lemma sorted_reverse_In (l : list Z) (x : Z) :
  In x (sorted_reverse l) <-> In x l.
Proof.
  unfold sorted_reverse. rewrite <- in_rev. apply sorted_In.
Qed.

Lemma sorted_nonempty (l : list Z) : l <> [] -> sorted l <> [].
Proof.
  intros Hne E. apply Hne.
  apply Permutation_nil. rewrite <- E. apply sorted_perm.
Qed.

Lemma sorted_reverse_nonempty (l : list Z) :
  l <> [] -> sorted_reverse l <> [].
Proof.
  intros Hne E. apply (sorted_nonempty l Hne).
  unfold sorted_reverse in E.
  apply (f_equal (@rev Z)) in E. rewrite rev_involutive in E. exact E.
Qed.

(** ** Deleting and writing rows *)

Lemma len_app {A} (l1 l2 : list A) : len (l1 ++ l2) = len l1 + len l2.
Proof. unfold len. rewrite length_app. lia. Qed.

Lemma len_cons {A} (x : A) (l : list A) : len (x :: l) = len l + 1.
Proof. unfold len. simpl List.length. lia. Qed.

Lemma len_nonneg {A} (l : list A) : 0 <= len l.
Proof. unfold len. lia. Qed.

Lemma py_position_in_range {A} (l : list A) (i : Z) :
  0 <= i < len l -> py_position l i = Ok (Z.to_nat i).
Proof.
  intros [H0 H1]. unfold py_position.
  replace (0 <=? i) with true by (symmetry; apply Z.leb_le; lia).
  replace (i <? len l) with true by (symmetry; apply Z.ltb_lt; lia).
  reflexivity.
Qed.

(** A row inside the list splits it. *)
Lemma split_at_row (l : list string) (i : Z) :
  0 <= i < len l ->
  exists l1 x l2, l = l1 ++ x :: l2 /\ len l1 = i.
Proof.
  intros H. unfold len in *.
  destruct (nth_split (n := Z.to_nat i) l "") as (l1 & l2 & Hl & Hlen);
    [lia|].
  exists l1, (nth (Z.to_nat i) l ""), l2. split; [exact Hl|]. lia.
Qed.

Lemma firstn_len_app (l1 l2 : list string) :
  firstn (Z.to_nat (len l1)) (l1 ++ l2) = l1.
Proof.
  unfold len. rewrite Nat2Z.id.
  rewrite firstn_app, Nat.sub_diag, firstn_all. simpl. apply app_nil_r.
Qed.

Lemma skipn_len_app (l1 l2 : list string) :
  skipn (Z.to_nat (len l1)) (l1 ++ l2) = l2.
Proof.
  unfold len. rewrite Nat2Z.id.
  rewrite skipn_app, Nat.sub_diag, skipn_all. reflexivity.
Qed.

Lemma py_delitem_middle (l1 l2 : list string) (x : string) :
  py_delitem (l1 ++ x :: l2) (len l1) = Ok (l1 ++ l2).
Proof.
  unfold py_delitem.
  rewrite py_position_in_range
    by (rewrite len_app, len_cons;
        pose proof (len_nonneg l1); pose proof (len_nonneg l2); lia).
  cbn [bind]. rewrite firstn_len_app. f_equal. f_equal.
  replace (S (Z.to_nat (len l1))) with (1 + Z.to_nat (len l1))%nat by lia.
  rewrite <- skipn_skipn, skipn_len_app. reflexivity.
Qed.

Lemma py_setitem_middle (l1 l2 : list string) (x v : string) :
  py_setitem (l1 ++ x :: l2) (len l1) v = Ok (l1 ++ v :: l2).
Proof.
  unfold py_setitem.
  rewrite py_position_in_range
    by (rewrite len_app, len_cons;
        pose proof (len_nonneg l1); pose proof (len_nonneg l2); lia).
  cbn [bind]. rewrite firstn_len_app. f_equal. f_equal. f_equal.
  replace (S (Z.to_nat (len l1))) with (1 + Z.to_nat (len l1))%nat by lia.
  rewrite <- skipn_skipn, skipn_len_app. reflexivity.
Qed.

Lemma py_getitem_middle (l1 l2 : list string) (x : string) :
  py_getitem (l1 ++ x :: l2) (len l1) = Ok x.
Proof.
  rewrite py_getitem_in_range
    by (rewrite len_app, len_cons;
        pose proof (len_nonneg l1); pose proof (len_nonneg l2); lia).
  unfold len. rewrite Nat2Z.id, nth_middle. reflexivity.
Qed.

Lemma song_at_app_l (l1 l2 : list string) (k : Z) :
  0 <= k < len l1 -> song_at (l1 ++ l2) k = song_at l1 k.
Proof.
  intros H. unfold song_at, len in *. apply app_nth1. lia.
Qed.

Lemma song_at_app_r (l1 l2 : list string) (k : Z) :
  len l1 <= k -> song_at (l1 ++ l2) k = song_at l2 (k - len l1).
Proof.
  intros H. unfold song_at, len in *. rewrite app_nth2 by lia.
  f_equal. lia.
Qed.

Lemma song_at_cons (x : string) (l : list string) (k : Z) :
  0 < k -> song_at (x :: l) k = song_at l (k - 1).
Proof.
  intros H. unfold song_at.
  replace (Z.to_nat k) with (S (Z.to_nat (k - 1))) by lia. reflexivity.
Qed.

(** Swapping two neighbours. *)
Lemma py_swap_neighbours (l1 l2 : list string) (x y : string) :
  py_swap (l1 ++ x :: y :: l2) (len l1 + 1) (len l1 + 1 + -1)
  = Ok (l1 ++ y :: x :: l2) /\
  py_swap (l1 ++ x :: y :: l2) (len l1) (len l1 + 1)
  = Ok (l1 ++ y :: x :: l2).
Proof.
  assert (E1 : forall a, len l1 + 1 = len (l1 ++ [a]))
    by (intros; rewrite len_app; reflexivity).
  assert (Ea : forall a b m, l1 ++ a :: b :: m = (l1 ++ [a]) ++ b :: m)
    by (intros; rewrite <- app_assoc; reflexivity).
  unfold py_swap. split.
  - replace (len l1 + 1 + -1) with (len l1) by lia.
    rewrite py_getitem_middle. cbn [bind].
    rewrite (Ea x y l2), (E1 x), py_getitem_middle. cbn [bind].
    rewrite py_setitem_middle. cbn [bind].
    rewrite <- app_assoc. cbn [app].
    rewrite py_setitem_middle. reflexivity.
  - rewrite (Ea x y l2), (E1 x), py_getitem_middle. cbn [bind].
    rewrite <- (Ea x y l2), py_getitem_middle. cbn [bind].
    rewrite py_setitem_middle. cbn [bind].
    rewrite <- (E1 x), (E1 y), (Ea y y l2), py_setitem_middle.
    rewrite <- app_assoc. reflexivity.
Qed.

Lemma split_at_pair (l : list string) (i : Z) :
  0 <= i -> i + 1 < len l ->
  exists l1 x y l2, l = l1 ++ x :: y :: l2 /\ len l1 = i.
Proof.
  intros H0 H1.
  destruct (split_at_row l i ltac:(lia)) as (l1 & x & l2 & -> & Hl).
  rewrite len_app, len_cons in H1.
  destruct l2 as [|y l2]; [unfold len in *; simpl in *; lia|].
  exists l1, x, y, l2. split; [reflexivity|exact Hl].
Qed.

(** ** remove_selected_songs *)

Lemma existsb_In (i : Z) (rows : list Z) :
  existsb (Z.eqb i) rows = true <-> In i rows.
Proof.
  rewrite existsb_exists. split.
  - intros (x & Hin & E). apply Z.eqb_eq in E. subst. exact Hin.
  - intros Hin. exists i. split; [exact Hin|apply Z.eqb_refl].
Qed.

Lemma existsb_same (i : Z) (rows1 rows2 : list Z) :
  (In i rows1 <-> In i rows2) ->
  existsb (Z.eqb i) rows1 = existsb (Z.eqb i) rows2.
Proof.
  intros H.
  destruct (existsb (Z.eqb i) rows1) eqn:E1;
    destruct (existsb (Z.eqb i) rows2) eqn:E2; try reflexivity.
  - apply existsb_In, H, existsb_In in E1. congruence.
  - apply existsb_In, H, existsb_In in E2. congruence.
Qed.

Lemma without_rows_same (rows1 rows2 : list Z) (l : list string) :
  forall off,
    (forall i, off <= i < off + len l -> (In i rows1 <-> In i rows2)) ->
    without_rows rows1 off l = without_rows rows2 off l.
Proof.
  induction l as [|x l IH]; intros off H; simpl; [reflexivity|].
  assert (Hl : 0 <= len l) by apply len_nonneg.
  rewrite (existsb_same off rows1 rows2)
    by (apply H; rewrite len_cons; lia).
  rewrite (IH (off + 1)) by (intros i Hi; apply H; rewrite len_cons; lia).
  reflexivity.
Qed.

Lemma without_rows_none (rows : list Z) (l : list string) :
  forall off,
    (forall r, In r rows -> r < off) -> without_rows rows off l = l.
Proof.
  induction l as [|x l IH]; intros off H; simpl; [reflexivity|].
  destruct (existsb (Z.eqb off) rows) eqn:E.
  - apply existsb_In in E. specialize (H off E). lia.
  - f_equal. apply IH. intros r Hr. specialize (H r Hr). lia.
Qed.

Lemma without_rows_app (rows : list Z) (l1 l2 : list string) :
  forall off,
    without_rows rows off (l1 ++ l2)
    = without_rows rows off l1 ++ without_rows rows (off + len l1) l2.
Proof.
  induction l1 as [|x l1 IH]; intros off; simpl.
  - f_equal. unfold len. simpl. lia.
  - rewrite IH, len_cons.
    replace (off + 1 + len l1) with (off + (len l1 + 1)) by lia.
    destruct (existsb (Z.eqb off) rows); reflexivity.
Qed.

Lemma py_delitem_length (l l' : list string) (i : Z) :
  py_delitem l i = Ok l' -> (List.length l' + 1 = List.length l)%nat.
Proof.
  unfold py_delitem, py_position.
  assert (H : forall k, (k < List.length l)%nat ->
                        (List.length (firstn k l ++ skipn (S k) l) + 1
                         = List.length l)%nat).
  { intros k Hk. rewrite length_app, length_firstn, length_skipn. lia. }
  unfold len.
  destruct ((0 <=? i) && (i <? Z.of_nat (List.length l))) eqn:E1.
  - apply andb_prop in E1. destruct E1 as [E0 E1].
    apply Z.leb_le in E0. apply Z.ltb_lt in E1.
    simpl. intros E. injection E as <-. apply H. lia.
  - destruct ((- Z.of_nat (List.length l) <=? i) && (i <? 0)) eqn:E2;
      [|discriminate].
    apply andb_prop in E2. destruct E2 as [E0 E2].
    apply Z.leb_le in E0. apply Z.ltb_lt in E2.
    simpl. intros E. injection E as <-. apply H. lia.
Qed.

Lemma delete_rows_length (rows : list Z) :
  forall l l',
    delete_rows rows l = Ok l' ->
    (List.length l' + List.length rows = List.length l)%nat.
Proof.
  induction rows as [|r rows IH]; intros l l' H; simpl in H.
  - injection H as <-. simpl. lia.
  - destruct (py_delitem l r) as [l1| |] eqn:E; try discriminate.
    simpl in H. apply IH in H. apply py_delitem_length in E.
    simpl. lia.
Qed.

(** Deleting from the highest row down takes out the rows as they were
    numbered before the first deletion. *)
Lemma delete_rows_descending (rows : list Z) :
  StronglySorted Z.gt rows ->
  forall l,
    (forall r, In r rows -> 0 <= r < len l) ->
    delete_rows rows l = Ok (without_rows rows 0 l).
Proof.
  induction 1 as [|r rows Hs IH Hall]; intros l Hr; simpl.
  - rewrite without_rows_none; [reflexivity|]. intros r [].
  - rewrite Forall_forall in Hall.
    destruct (split_at_row l r (Hr r (or_introl eq_refl)))
      as (l1 & x & l2 & -> & Hl1).
    rewrite <- Hl1 at 1. rewrite py_delitem_middle. cbn [bind].
    rewrite IH.
    2:{ intros r' Hr'. specialize (Hall r' Hr').
        destruct (Hr r' (or_intror Hr')) as [H0 _].
        rewrite len_app. pose proof (len_nonneg l2). lia. }
    f_equal. rewrite !without_rows_app. cbn [without_rows].
    replace (existsb (Z.eqb (0 + len l1)) (r :: rows)) with true
      by (symmetry; apply existsb_In; left; lia).
    rewrite (without_rows_none rows l2)
      by (intros r' Hr'; specialize (Hall r' Hr'); lia).
    rewrite (without_rows_none (r :: rows) l2)
      by (intros r' [<-|Hr']; [|specialize (Hall r' Hr')]; lia).
    f_equal. apply without_rows_same. intros i Hi. split.
    + intros Hin. right. exact Hin.
    + intros [E|Hin]; [lia|exact Hin].
Qed.

(** X1: with the selected rows distinct and inside the playlist,
    remove_selected_songs returns normally and the playlist that is left
    is the old one without exactly the selected rows, the other songs in
    their order; it is shorter by the number of rows.  The cursor,
    the jingles and the scheduler are not touched. *)
Theorem remove_selected_songs_removes_rows (rows : list Z) (a : App) :
  NoDup rows ->
  (forall r, In r rows -> 0 <= r < len (playlist a)) ->
  exists a',
    remove_selected_songs rows a = Ok a' /\
    playlist a' = without_rows rows 0 (playlist a) /\
    len (playlist a') = len (playlist a) - len rows /\
    play_index a' = play_index a /\
    jingles a' = jingles a /\
    scheduler a' = scheduler a /\
    calls a' = calls a.
Proof.
  intros Hnd Hr. unfold remove_selected_songs.
  destruct rows as [|r0 rows0].
  - exists a. simpl. split; [reflexivity|].
    rewrite without_rows_none by (intros r []).
    repeat split. unfold len. simpl. lia.
  - remember (r0 :: rows0) as rows eqn:Erows.
    assert (Hne : py_empty rows = false) by (subst rows; reflexivity).
    clear Erows.
    assert (Hdel : delete_rows (sorted_reverse rows) (playlist a)
                   = Ok (without_rows (sorted_reverse rows) 0 (playlist a))).
    { apply delete_rows_descending.
      - apply sorted_reverse_gt. exact Hnd.
      - intros r Hin. apply Hr. apply sorted_reverse_In. exact Hin. }
    assert (Hsame : without_rows (sorted_reverse rows) 0 (playlist a)
                    = without_rows rows 0 (playlist a))
      by (apply without_rows_same; intros i _; apply sorted_reverse_In).
    rewrite Hne, Hdel, Hsame. cbn [bind].
    eexists. split; [reflexivity|]. simpl.
    split; [reflexivity|]. split; [|repeat split].
    apply delete_rows_length in Hdel. rewrite Hsame in Hdel.
    unfold sorted_reverse in Hdel.
    rewrite length_rev, (Permutation_length (sorted_perm rows)) in Hdel.
    unfold len. lia.
Qed.

(** X1 on three songs of five. *)
Lemma remove_selected_songs_removes_rows_witness :
  exists a',
    remove_selected_songs [1; 4; 2]
      (mkApp ["a"; "b"; "c"; "d"; "e"] [] 3 init false None [])
    = Ok a' /\
    playlist a' = ["a"; "d"] /\ play_index a' = 3.
Proof.
  destruct (remove_selected_songs_removes_rows [1; 4; 2]
              (mkApp ["a"; "b"; "c"; "d"; "e"] [] 3 init false None []))
    as (a' & H & Hp & _ & Hi & _).
  - repeat constructor; simpl; intuition discriminate.
  - simpl. unfold len. simpl. intros r [<-|[<-|[<-|[]]]]; lia.
  - exists a'. split; [exact H|]. split; [exact Hp|exact Hi].
Defined.

(** ** move_up and move_down *)

Lemma song_at_pair (l1 l2 : list string) (x y : string) :
  song_at (l1 ++ x :: y :: l2) (len l1) = x /\
  song_at (l1 ++ x :: y :: l2) (len l1 + 1) = y.
Proof.
  pose proof (len_nonneg l1) as H0. split.
  - rewrite song_at_app_r by lia. rewrite Z.sub_diag. reflexivity.
  - rewrite song_at_app_r by lia.
    replace (len l1 + 1 - len l1) with 1 by lia. reflexivity.
Qed.

Lemma song_at_outside_pair (l1 l2 : list string) (x y : string) (k : Z) :
  0 <= k -> k < len l1 \/ len l1 + 2 <= k ->
  song_at (l1 ++ y :: x :: l2) k = song_at (l1 ++ x :: y :: l2) k.
Proof.
  pose proof (len_nonneg l1) as H0. intros Hk [H|H].
  - rewrite !song_at_app_l by lia. reflexivity.
  - rewrite !song_at_app_r by lia.
    rewrite !(song_at_cons _ _ (k - len l1)) by lia.
    rewrite !(song_at_cons _ _ (k - len l1 - 1)) by lia. reflexivity.
Qed.

Lemma len_swapped (l1 l2 : list string) (x y : string) :
  len (l1 ++ y :: x :: l2) = len (l1 ++ x :: y :: l2).
Proof. rewrite !len_app, !len_cons. reflexivity. Qed.

(** Swapping each row with the one above, from the lowest row number
    up. *)
Lemma swap_rows_up (rows : list Z) :
  StronglySorted Z.lt rows ->
  forall l,
    (forall r, In r rows -> 1 <= r < len l) ->
    exists l',
      swap_rows (-1) rows l = Ok l' /\
      Permutation l l' /\
      (forall k, 0 <= k -> (forall r, In r rows -> k < r - 1) ->
                 song_at l' k = song_at l k) /\
      (forall r, In r rows -> song_at l' (r - 1) = song_at l r).
Proof.
  induction 1 as [|r rows Hs IH Hall]; intros l Hr.
  - exists l. split; [reflexivity|]. split; [apply Permutation_refl|].
    split; [reflexivity|]. intros r [].
  - rewrite Forall_forall in Hall.
    destruct (Hr r (or_introl eq_refl)) as [Hr1 Hr2].
    destruct (split_at_pair l (r - 1) ltac:(lia) ltac:(lia))
      as (l1 & x & y & l2 & -> & Hl1).
    assert (Er : r = len l1 + 1) by lia.
    destruct (IH (l1 ++ y :: x :: l2)) as (l' & Hrun & Hperm & Hkeep & Hmove).
    { intros r' Hr'. rewrite len_swapped. apply Hr. right. exact Hr'. }
    exists l'. split; [|split; [|split]].
    + cbn [swap_rows]. rewrite Er at 1 2.
      rewrite (proj1 (py_swap_neighbours l1 l2 x y)). exact Hrun.
    + apply perm_trans with (l1 ++ y :: x :: l2); [|exact Hperm].
      apply Permutation_app_head, perm_swap.
    + intros k Hk Hbelow.
      rewrite Hkeep by (try exact Hk; intros r' Hr'; apply Hbelow;
                        right; exact Hr').
      apply song_at_outside_pair; [exact Hk|].
      left. specialize (Hbelow r (or_introl eq_refl)). lia.
    + intros r' [<-|Hr'].
      * rewrite Hkeep
          by (try lia; intros r' Hr'; specialize (Hall r' Hr'); lia).
        replace (r - 1) with (len l1) by lia. rewrite Er.
        rewrite (proj1 (song_at_pair l1 l2 y x)).
        rewrite (proj2 (song_at_pair l1 l2 x y)). reflexivity.
      * rewrite (Hmove r' Hr'). specialize (Hall r' Hr').
        apply song_at_outside_pair; lia.
Qed.

(** Swapping each row with the one below, from the highest row number
    down. *)
Lemma swap_rows_down (rows : list Z) :
  StronglySorted Z.gt rows ->
  forall l,
    (forall r, In r rows -> 0 <= r /\ r + 1 < len l) ->
    exists l',
      swap_rows 1 rows l = Ok l' /\
      Permutation l l' /\
      (forall k, (forall r, In r rows -> r + 1 < k) ->
                 song_at l' k = song_at l k) /\
      (forall r, In r rows -> song_at l' (r + 1) = song_at l r).
Proof.
  induction 1 as [|r rows Hs IH Hall]; intros l Hr.
  - exists l. split; [reflexivity|]. split; [apply Permutation_refl|].
    split; [reflexivity|]. intros r [].
  - rewrite Forall_forall in Hall.
    destruct (Hr r (or_introl eq_refl)) as [Hr1 Hr2].
    destruct (split_at_pair l r Hr1 Hr2) as (l1 & x & y & l2 & -> & Hl1).
    destruct (IH (l1 ++ y :: x :: l2)) as (l' & Hrun & Hperm & Hkeep & Hmove).
    { intros r' Hr'. rewrite len_swapped. apply Hr. right. exact Hr'. }
    exists l'. split; [|split; [|split]].
    + cbn [swap_rows]. rewrite <- Hl1.
      rewrite (proj2 (py_swap_neighbours l1 l2 x y)). exact Hrun.
    + apply perm_trans with (l1 ++ y :: x :: l2); [|exact Hperm].
      apply Permutation_app_head, perm_swap.
    + intros k Habove.
      rewrite Hkeep by (intros r' Hr'; apply Habove; right; exact Hr').
      specialize (Habove r (or_introl eq_refl)).
      apply song_at_outside_pair; lia.
    + intros r' [<-|Hr'].
      * rewrite Hkeep by (intros r' Hr'; specialize (Hall r' Hr'); lia).
        rewrite <- Hl1.
        rewrite (proj2 (song_at_pair l1 l2 y x)).
        rewrite (proj1 (song_at_pair l1 l2 x y)). reflexivity.
      * rewrite (Hmove r' Hr'). specialize (Hall r' Hr').
        destruct (Hr r' (or_intror Hr')) as [H0 _].
        apply song_at_outside_pair; lia.
Qed.

Lemma hd_sorted_zero (rows : list Z) :
  rows <> [] -> NoDup rows -> (forall r, In r rows -> 0 <= r) ->
  (hd 0 (sorted rows) =? 0) = true <-> In 0 rows.
Proof.
  intros Hne Hnd Hpos. pose proof (sorted_lt rows Hnd) as Hs.
  pose proof (sorted_nonempty rows Hne) as Hne'.
  rewrite <- (sorted_In rows 0).
  assert (Hpos' : forall r, In r (sorted rows) -> 0 <= r)
    by (intros r Hin; apply Hpos, sorted_In; exact Hin).
  destruct (sorted rows) as [|h t]; [contradiction|]. simpl.
  inversion Hs as [|? ? _ Hall]; subst. rewrite Forall_forall in Hall.
  rewrite Z.eqb_eq. split; [intros ->; left; reflexivity|].
  intros [E|Hin]; [exact E|].
  specialize (Hall 0 Hin). specialize (Hpos' h (or_introl eq_refl)). lia.
Qed.

Lemma hd_sorted_reverse_last (rows : list Z) (n : Z) :
  rows <> [] -> NoDup rows -> (forall r, In r rows -> r <= n) ->
  (hd 0 (sorted_reverse rows) =? n) = true <-> In n rows.
Proof.
  intros Hne Hnd Hmax. pose proof (sorted_reverse_gt rows Hnd) as Hs.
  pose proof (sorted_reverse_nonempty rows Hne) as Hne'.
  rewrite <- (sorted_reverse_In rows n).
  assert (Hmax' : forall r, In r (sorted_reverse rows) -> r <= n)
    by (intros r Hin; apply Hmax, sorted_reverse_In; exact Hin).
  destruct (sorted_reverse rows) as [|h t]; [contradiction|]. simpl.
  inversion Hs as [|? ? _ Hall]; subst. rewrite Forall_forall in Hall.
  rewrite Z.eqb_eq. split; [intros ->; left; reflexivity|].
  intros [E|Hin]; [exact E|].
  specialize (Hall n Hin). specialize (Hmax' h (or_introl eq_refl)). lia.
Qed.

(** X2: with the selected rows distinct and inside the playlist, move_up
    returns normally and only reorders the playlist; when row 0 is among
    them nothing moves, otherwise every selected song ends one row higher
    than it was.  The cursor keeps its number, whatever song that row now
    holds. *)
Theorem move_up_moves_selection (rows : list Z) (a : App) :
  NoDup rows ->
  (forall r, In r rows -> 0 <= r < len (playlist a)) ->
  exists a',
    move_up rows a = Ok a' /\
    Permutation (playlist a) (playlist a') /\
    play_index a' = play_index a /\
    scheduler a' = scheduler a /\
    (In 0 rows -> a' = a) /\
    (~ In 0 rows ->
     forall r, In r rows ->
               song_at (playlist a') (r - 1) = song_at (playlist a) r).
Proof.
  intros Hnd Hr. unfold move_up.
  destruct (list_eq_dec Z.eq_dec rows []) as [->|Hne].
  { exists a. simpl. split; [reflexivity|].
    split; [apply Permutation_refl|]. repeat split. intros _ r []. }
  rewrite (py_empty_false rows Hne). cbv zeta.
  pose proof (hd_sorted_zero rows Hne Hnd (fun r H => proj1 (Hr r H)))
    as Hhd.
  destruct (hd 0 (sorted rows) =? 0) eqn:E.
  - exists a. split; [reflexivity|]. split; [apply Permutation_refl|].
    repeat split. intros Hn. exfalso. apply Hn, Hhd. reflexivity.
  - assert (Hn0 : ~ In 0 rows)
      by (intros Hin; apply Hhd in Hin; discriminate).
    destruct (swap_rows_up (sorted rows) (sorted_lt rows Hnd) (playlist a))
      as (l' & Hrun & Hperm & _ & Hmove).
    { intros r Hin. apply (proj1 (sorted_In _ _)) in Hin.
      destruct (Z.eq_dec r 0) as [->|Hr0]; [contradiction|].
      specialize (Hr r Hin). lia. }
    rewrite Hrun. cbn [bind]. eexists. split; [reflexivity|]. simpl.
    split; [exact Hperm|]. repeat split.
    + intros Hin. contradiction.
    + intros _ r Hin. apply Hmove. apply (proj2 (sorted_In _ _)). exact Hin.
Qed.

(** X2 on rows 1 and 3 of four songs. *)
Lemma move_up_moves_selection_witness :
  exists a',
    move_up [3; 1] (mkApp ["a"; "b"; "c"; "d"] [] 1 init false None [])
    = Ok a' /\
    song_at (playlist a') (3 - 1) = "d" /\
    song_at (playlist a') (1 - 1) = "b" /\
    play_index a' = 1.
Proof.
  destruct (move_up_moves_selection [3; 1]
              (mkApp ["a"; "b"; "c"; "d"] [] 1 init false None []))
    as (a' & H & _ & Hi & _ & _ & Hm).
  - repeat constructor; simpl; intuition discriminate.
  - simpl. unfold len. simpl. intros r [<-|[<-|[]]]; lia.
  - assert (Hn : ~ In 0 [3; 1]) by (simpl; intuition discriminate).
    exists a'. split; [exact H|].
    split; [exact (Hm Hn 3 (or_introl eq_refl))|].
    split; [exact (Hm Hn 1 (or_intror (or_introl eq_refl)))|exact Hi].
Defined.

(** X3: with the selected rows distinct and inside the playlist,
    move_down returns normally and only reorders the playlist; when the
    last row is among them nothing moves, otherwise every selected song
    ends one row lower than it was.  The cursor keeps its number. *)
Theorem move_down_moves_selection (rows : list Z) (a : App) :
  NoDup rows ->
  (forall r, In r rows -> 0 <= r < len (playlist a)) ->
  exists a',
    move_down rows a = Ok a' /\
    Permutation (playlist a) (playlist a') /\
    play_index a' = play_index a /\
    scheduler a' = scheduler a /\
    (In (len (playlist a) - 1) rows -> a' = a) /\
    (~ In (len (playlist a) - 1) rows ->
     forall r, In r rows ->
               song_at (playlist a') (r + 1) = song_at (playlist a) r).
Proof.
  intros Hnd Hr. unfold move_down.
  destruct (list_eq_dec Z.eq_dec rows []) as [->|Hne].
  { exists a. simpl. split; [reflexivity|].
    split; [apply Permutation_refl|]. repeat split. intros _ r []. }
  rewrite (py_empty_false rows Hne). cbv zeta.
  pose proof (hd_sorted_reverse_last rows (len (playlist a) - 1) Hne Hnd)
    as Hhd.
  specialize (Hhd ltac:(intros r H; specialize (Hr r H); lia)).
  destruct (hd 0 (sorted_reverse rows) =? len (playlist a) - 1) eqn:E.
  - exists a. split; [reflexivity|]. split; [apply Permutation_refl|].
    repeat split. intros Hn. exfalso. apply Hn, Hhd. reflexivity.
  - assert (Hn0 : ~ In (len (playlist a) - 1) rows)
      by (intros Hin; apply Hhd in Hin; discriminate).
    destruct (swap_rows_down (sorted_reverse rows)
                (sorted_reverse_gt rows Hnd) (playlist a))
      as (l' & Hrun & Hperm & _ & Hmove).
    { intros r Hin. apply (proj1 (sorted_reverse_In _ _)) in Hin.
      destruct (Z.eq_dec r (len (playlist a) - 1)) as [->|Hr0];
        [contradiction|].
      specialize (Hr r Hin). lia. }
    rewrite Hrun. cbn [bind]. eexists. split; [reflexivity|]. simpl.
    split; [exact Hperm|]. repeat split.
    + intros Hin. contradiction.
    + intros _ r Hin. apply Hmove.
      apply (proj2 (sorted_reverse_In _ _)). exact Hin.
Qed.

(** X3 on rows 0 and 2 of four songs. *)
Lemma move_down_moves_selection_witness :
  exists a',
    move_down [0; 2] (mkApp ["a"; "b"; "c"; "d"] [] 1 init false None [])
    = Ok a' /\
    song_at (playlist a') (0 + 1) = "a" /\
    song_at (playlist a') (2 + 1) = "c".
Proof.
  destruct (move_down_moves_selection [0; 2]
              (mkApp ["a"; "b"; "c"; "d"] [] 1 init false None []))
    as (a' & H & _ & _ & _ & _ & Hm).
  - repeat constructor; simpl; intuition discriminate.
  - simpl. unfold len. simpl. intros r [<-|[<-|[]]]; lia.
  - assert (Hn : ~ In (len ["a"; "b"; "c"; "d"] - 1) [0; 2])
      by (unfold len; simpl; intuition discriminate).
    exists a'. split; [exact H|].
    split; [exact (Hm Hn 0 (or_introl eq_refl))|].
    exact (Hm Hn 2 (or_intror (or_introl eq_refl))).
Defined.

(** ** When a clock time is due *)

Lemma replace_hm_le (now h m : Z) :
  (replace_hm now h m <=? now)
  = ((h * 60 + m) * us_per_minute <=? now mod us_per_day).
Proof.
  unfold replace_hm.
  assert (Hd : 0 < us_per_day) by reflexivity.
  pose proof (Z.div_mod now us_per_day ltac:(lia)) as E.
  destruct ((h * 60 + m) * us_per_minute <=? now mod us_per_day) eqn:E1.
  - apply Z.leb_le in E1. apply Z.leb_le. lia.
  - apply Z.leb_gt in E1. apply Z.leb_gt. lia.
Qed.

(** X4: an entry that parses to hour h and minute m is due exactly when
    the time of day of now has reached h:m, from that minute until
    midnight, whatever the date; an entry that does not parse is never
    due.  Whole days added to now change nothing. *)
Theorem due_by_time_of_day (now : Z) (tstr : string) :
  due now tstr
  = match strptime_HM tstr with
    | Some (h, m) => (h * 60 + m) * us_per_minute <=? now mod us_per_day
    | None => false
    end /\
  forall days, due (now + days * us_per_day) tstr = due now tstr.
Proof.
  assert (H : due now tstr
              = match strptime_HM tstr with
                | Some (h, m) =>
                    (h * 60 + m) * us_per_minute <=? now mod us_per_day
                | None => false
                end).
  { unfold due. destruct (strptime_HM tstr) as [[h m]|]; [|reflexivity].
    apply replace_hm_le. }
  split; [exact H|].
  intros days. unfold due.
  destruct (strptime_HM tstr) as [[h m]|]; [|reflexivity].
  rewrite !replace_hm_le. rewrite Z.mod_add by discriminate. reflexivity.
Qed.

(** At ten past midnight an entry for 23:50 is not due; it is from 23:50
    on, also on a later day. *)
Example due_late_evening :
  due (10 * us_per_minute) "23:50" = false /\
  due (3 * us_per_day + (23 * 60 + 50) * us_per_minute) "23:50" = true.
Proof. split; reflexivity. Qed.

(** ** How many jingles the clock times give *)

Lemma py_remove_length (x : string) (l : list string) :
  In x l -> S (List.length (py_remove x l)) = List.length l.
Proof.
  induction l as [|s l IH]; intros Hin; [destruct Hin|]. simpl.
  destruct (String.eqb s x) eqn:E; [reflexivity|].
  apply String.eqb_neq in E. destruct Hin as [H|H]; [contradiction|].
  simpl. f_equal. apply IH. exact H.
Qed.

Lemma should_play_outside_per_hour (fuel : nat) (now : Z)
  (st : SchedulerState) (b : bool) (st' : SchedulerState) :
  mode st <> Some PerHour ->
  should_play_jingle_after_song fuel now st = Ok (b, st') ->
  mode st' <> Some PerHour /\
  per_hour st' = per_hour st /\
  next_jingle_time st' = next_jingle_time st /\
  (List.length (times st') + (if b then 1 else 0)
   = List.length (times st))%nat.
Proof.
  intros Hm. unfold should_play_jingle_after_song.
  destruct (fixed_due now st) as [[U|]| |] eqn:Efd; simpl; try discriminate.
  - intros H. injection H as <- <-. simpl.
    assert (Hin : In U (times st)).
    { unfold fixed_due in Efd.
      destruct (mode_eqb (mode st) (Some Times)
                && negb (py_empty (times st))); [|discriminate].
      exact (first_due_In now _ U Efd). }
    split.
    + destruct (py_empty (py_remove U (times st)) && (per_hour st =? 0));
        [discriminate|exact Hm].
    + repeat split. pose proof (py_remove_length U (times st) Hin). lia.
  - replace (mode_eqb (mode st) (Some PerHour)) with false
      by (destruct (mode st) as [[|]|]; try reflexivity; contradiction).
    simpl. intros H. injection H as <- <-. repeat split; try assumption.
    lia.
Qed.

(** X5: as long as the mode is not 'per_hour', a series of checks fires
    exactly as many jingles as it removes entries from times: the number
    of True results plus the entries left is the number of entries at the
    start, so no more jingles than queued times; the mode never becomes
    'per_hour' and the per-hour timer is not touched. *)
Theorem clock_times_fire_once_each (fuel : nat) (nows : list Z)
  (st : SchedulerState) (bs : list bool) (st' : SchedulerState) :
  mode st <> Some PerHour ->
  run_checks fuel nows st = Ok (bs, st') ->
  (fires bs + List.length (times st') = List.length (times st))%nat /\
  mode st' <> Some PerHour /\
  per_hour st' = per_hour st /\
  next_jingle_time st' = next_jingle_time st.
Proof.
  revert st bs st'.
  induction nows as [|now nows IH]; intros st bs st' Hm H; simpl in H.
  - injection H as <- <-. repeat split; try assumption.
  - destruct (should_play_jingle_after_song fuel now st)
      as [[b0 st1]| |] eqn:E0; try discriminate. simpl in H.
    destruct (run_checks fuel nows st1) as [[bs1 st2]| |] eqn:E1;
      try discriminate. simpl in H. injection H as <- <-.
    destruct (should_play_outside_per_hour fuel now st b0 st1 Hm E0)
      as (Hm1 & Hp1 & Hn1 & Hlen).
    destruct (IH st1 bs1 st2 Hm1 E1) as (Hc & Hm2 & Hp2 & Hn2).
    split; [|split; [exact Hm2|split; congruence]].
    unfold fires in *. simpl. destruct b0; simpl in *; lia.
Qed.

(** X5 on two queued times and four checks in the afternoon. *)
Lemma clock_times_fire_once_each_witness :
  let st := snd (add_time "11:30" (snd (add_time "09:00" init))) in
  exists bs st',
    run_checks 0 [43200000000; 43200000001; 43200000002; 43200000003] st
    = Ok (bs, st') /\
    (fires bs + List.length (times st') = 2)%nat.
Proof.
  cbv zeta. eexists. eexists. split; [reflexivity|].
  refine (proj1 (clock_times_fire_once_each 0
                   [43200000000; 43200000001; 43200000002; 43200000003]
                   (snd (add_time "11:30" (snd (add_time "09:00" init))))
                   _ _ _ eq_refl)).
  discriminate.
Defined.

(** ** Every check returns *)

Lemma should_play_outside_per_hour_returns (fuel : nat) (now : Z)
  (st : SchedulerState) :
  mode st <> Some PerHour ->
  forallb parses (times st) = true ->
  exists b st',
    forall fuel',
      should_play_jingle_after_song fuel' now st = Ok (b, st').
Proof.
  intros Hm Hp. unfold should_play_jingle_after_song, fixed_due.
  assert (Hq : mode_eqb (mode st) (Some PerHour) = false)
    by (destruct (mode st) as [[|]|]; try reflexivity; contradiction).
  destruct (mode_eqb (mode st) (Some Times) && negb (py_empty (times st))).
  - destruct (first_due_spec now (times st) Hp)
      as [[-> _]|(l1 & U & l2 & _ & _ & _ & ->)]; simpl.
    + rewrite Hq. simpl. eexists. eexists. intros _. reflexivity.
    + eexists. eexists. intros _. reflexivity.
  - simpl. rewrite Hq. simpl. eexists. eexists. intros _. reflexivity.
Qed.

(** X6: in every reachable state whose per_hour is below 7200000000 (the
    spin box allows 0 to 60), a check at any instant returns: it raises
    nothing, and its catch-up loop ends, after at most steps_needed
    steps. *)
Theorem check_returns (st : SchedulerState) (now : Z) :
  reachable st ->
  per_hour st < 7200000000 ->
  exists (fuel0 : nat) (b : bool) (st' : SchedulerState),
  forall fuel,
    (fuel0 <= fuel)%nat ->
    should_play_jingle_after_song fuel now st = Ok (b, st').
Proof.
  intros Hr Hbig. pose proof (reachable_inv st Hr) as Hinv.
  destruct (mode st) as [[|]|] eqn:Em.
  - destruct (should_play_outside_per_hour_returns O now st
                ltac:(rewrite Em; discriminate) (inv_parses st Hinv))
      as (b & st' & H).
    exists O, b, st'. intros fuel _. apply H.
  - pose proof (inv_per_hour_mode st Hinv Em) as Hpos.
    destruct (inv_next_set st Hinv Hpos) as (d & Hd).
    assert (Hp : 0 < period_us (per_hour st))
      by (apply period_us_pos; lia).
    destruct (Z_lt_le_dec now d) as [Hlt|Hle].
    + exists O, false, st. intros fuel _.
      exact (should_play_per_hour_early fuel now d st Em Hd Hlt).
    + eexists. eexists. eexists. intros fuel Hf.
      exact (should_play_per_hour_due fuel now d st Em Hpos Hp Hd Hle Hf).
  - destruct (should_play_outside_per_hour_returns O now st
                ltac:(rewrite Em; discriminate) (inv_parses st Hinv))
      as (b & st' & H).
    exists O, b, st'. intros fuel _. apply H.
Qed.

(** X6 on sixty jingles per hour, checked a day after the last one. *)
Lemma check_returns_witness :
  exists (fuel0 : nat) (b : bool) (st' : SchedulerState),
  forall fuel,
    (fuel0 <= fuel)%nat ->
    should_play_jingle_after_song fuel 86400000000 (set_per_hour 0 60 init)
    = Ok (b, st').
Proof.
  apply (check_returns (set_per_hour 0 60 init) 86400000000).
  - apply reach_set_per_hour, reach_init.
  - reflexivity.
Defined.

(** ** add_time followed by remove_time *)

Lemma py_in_app_last (s : string) (l : list string) :
  py_in s (l ++ [s]) = true.
Proof.
  apply py_in_In, in_or_app. right. left. reflexivity.
Qed.

(** X7: a time that parses and is not queued, added and then removed,
    leaves times, per_hour and both timers as they were, but not always
    the mode: it is None when times is empty and per_hour is 0, and
    'times' otherwise.  After it a scheduler that was in mode 'per_hour'
    with no queued time and per_hour > 0 is in mode 'times' with nothing
    queued, and no check fires any more. *)
Theorem add_then_remove_time (s : string) (st : SchedulerState) :
  parses s = true ->
  ~ In s (times st) ->
  let st' := remove_time s (snd (add_time s st)) in
  times st' = times st /\
  per_hour st' = per_hour st /\
  next_jingle_time st' = next_jingle_time st /\
  last_jingle_time st' = last_jingle_time st /\
  mode st' = (if py_empty (times st) && (per_hour st =? 0)
              then None else Some Times) /\
  (times st = [] -> 0 < per_hour st ->
   forall fuel now,
     should_play_jingle_after_song fuel now st' = Ok (false, st')).
Proof.
  intros Hp Hn. cbv zeta. unfold add_time, parses in *.
  destruct (strptime_HM s); [|discriminate]. unfold remove_time. simpl.
  rewrite py_in_app_last.
  rewrite (py_remove_first s (times st) [] Hn), app_nil_r.
  repeat split.
  intros Ht Hph fuel now. rewrite Ht. simpl.
  replace (per_hour st =? 0) with false by (symmetry; apply Z.eqb_neq; lia).
  reflexivity.
Qed.

(** X7 on two jingles per hour and the time "10:00". *)
Lemma add_then_remove_time_witness :
  let st := set_per_hour 0 2 init in
  let st' := remove_time "10:00" (snd (add_time "10:00" st)) in
  mode st = Some PerHour /\ mode st' = Some Times /\ times st' = [] /\
  forall fuel now,
    should_play_jingle_after_song fuel now st' = Ok (false, st').
Proof.
  cbv zeta.
  destruct (add_then_remove_time "10:00" (set_per_hour 0 2 init)
              eq_refl ltac:(intros []))
    as (Ht & _ & _ & _ & Hm & Hq).
  split; [reflexivity|]. split; [exact Hm|]. split; [exact Ht|].
  apply Hq; reflexivity.
Defined.

(** ** The literals of the 24-hour clock *)

Lemma hhmm_parses_all :
  forallb
    (fun h =>
       forallb
         (fun m =>
            match strptime_HM (hhmm (Z.of_nat h) (Z.of_nat m)) with
            | Some (h', m') => (h' =? Z.of_nat h) && (m' =? Z.of_nat m)
            | None => false
            end)
         (seq 0 60))
    (seq 0 24) = true.
Proof. vm_compute. reflexivity. Qed.

(** X8: every time of the 24-hour clock written HH:MM with two digits
    each, 00:00 to 23:59, parses to its hour and minute, so add_time
    accepts it: it returns True, appends the literal and sets the mode to
    'times'. *)
Theorem add_time_accepts_clock_times (h m : Z) (st : SchedulerState) :
  0 <= h <= 23 ->
  0 <= m <= 59 ->
  strptime_HM (hhmm h m) = Some (h, m) /\
  add_time (hhmm h m) st
  = (true, mkSched (Some Times) (times st ++ [hhmm h m]) (per_hour st)
                   (next_jingle_time st) (last_jingle_time st)).
Proof.
  intros Hh Hm.
  assert (Hp : strptime_HM (hhmm h m) = Some (h, m)).
  { pose proof hhmm_parses_all as H.
    rewrite forallb_forall in H.
    specialize (H (Z.to_nat h) ltac:(apply in_seq; lia)).
    rewrite forallb_forall in H.
    specialize (H (Z.to_nat m) ltac:(apply in_seq; lia)).
    rewrite !Z2Nat.id in H by lia.
    destruct (strptime_HM (hhmm h m)) as [[h' m']|]; [|discriminate].
    apply andb_prop in H. destruct H as [E1 E2].
    apply Z.eqb_eq in E1, E2. subst. reflexivity. }
  split; [exact Hp|]. unfold add_time. rewrite Hp. reflexivity.
Qed.

(** X8 at 07:05. *)
Lemma add_time_accepts_clock_times_witness :
  strptime_HM "07:05" = Some (7, 5) /\
  fst (add_time "07:05" init) = true.
Proof.
  destruct (add_time_accepts_clock_times 7 5 init ltac:(lia) ltac:(lia))
    as (Hp & Ha).
  split; [exact Hp|]. change "07:05" with (hhmm 7 5). rewrite Ha.
  reflexivity.
Defined.

(** ** The rate of the per-hour schedule *)

Lemma armed_run_rate (n D0 T : Z) (fuel : nat) :
  0 < n -> 0 < period_us n ->
  forall (nows : list Z) (m : Z) (st : SchedulerState) (bs : list bool)
         (st' : SchedulerState),
    armed n D0 m st ->
    Forall (fun t => t <= T) nows ->
    run_checks fuel nows st = Ok (bs, st') ->
    exists m',
      armed n D0 m' st' /\
      m + Z.of_nat (fires bs) <= m' /\
      (m < m' -> D0 + (m' - 1) * period_us n <= T).
Proof.
  intros Hn Hp.
  induction nows as [|now nows IH]; intros m st bs st' Ha HT H; simpl in H.
  - injection H as <- <-. exists m. split; [exact Ha|].
    unfold fires. simpl. split; lia.
  - destruct (should_play_jingle_after_song fuel now st)
      as [[b0 st1]| |] eqn:E0; try discriminate. simpl in H.
    destruct (run_checks fuel nows st1) as [[bs1 st2]| |] eqn:E1;
      try discriminate. simpl in H. injection H as <- <-.
    inversion HT as [|? ? Hnow HT']; subst.
    destruct (armed_step n D0 Hn m st fuel now b0 st1 Ha E0)
      as (m1 & Hle & Ha1 & _ & Hfalse & Htrue).
    destruct (IH m1 st1 bs1 st2 Ha1 HT' E1) as (m2 & Ha2 & Hcount & Hlast).
    exists m2. split; [exact Ha2|].
    assert (Hfire : b0 = true ->
                    m < m1 /\ D0 + (m1 - 1) * period_us n <= now).
    { intros Hb. destruct (Htrue Hb) as (Hlt & Hw & _).
      split; [exact Hlt|]. unfold window in Hw. rewrite <- Hw.
      pose proof (Z.mul_div_le (now - D0) (period_us n) Hp). lia. }
    split.
    + unfold fires in *. simpl.
      destruct b0; simpl.
      * destruct (Hfire eq_refl) as [Hlt _]. lia.
      * lia.
    + intros Hlt. destruct (Z_lt_le_dec m1 m2) as [H12|H12].
      * exact (Hlast H12).
      * assert (E : m2 = m1) by (unfold fires in *; lia). subst m2.
        destruct b0.
        -- destruct (Hfire eq_refl) as [_ Hlo]. lia.
        -- rewrite (Hfalse eq_refl) in Ha1. destruct Ha as (_ & _ & Hx).
           destruct Ha1 as (_ & _ & Hy). rewrite Hx in Hy.
           injection Hy as Hy. nia.
Qed.

(** X9: for 0 < n < 7200000000, after set_per_hour(n) at instant t0 and
    any series of checks at instants not after T, the due instant is still
    on the grid t0 + k * period (it never drifts with the instants of the
    checks), and the number of True results times the period is at most
    T - t0: no more than one jingle per period elapsed since the
    configuration. *)
Theorem per_hour_rate_bound (n t0 T : Z) (st : SchedulerState)
  (fuel : nat) (nows : list Z) (bs : list bool) (st' : SchedulerState) :
  0 < n < 7200000000 ->
  Forall (fun t => t <= T) nows ->
  run_checks fuel nows (set_per_hour t0 n st) = Ok (bs, st') ->
  exists k,
    1 <= k /\
    next_jingle_time st' = Some (t0 + k * period_us n) /\
    Z.of_nat (fires bs) <= k - 1 /\
    Z.of_nat (fires bs) * period_us n <= Z.max 0 (T - t0).
Proof.
  intros Hn HT Hrun.
  assert (Hp : 0 < period_us n) by (apply period_us_pos; exact Hn).
  assert (Ha0 : armed n (t0 + period_us n) 0 (set_per_hour t0 n st)).
  { unfold armed, set_per_hour; simpl.
    replace (0 <? n) with true by (symmetry; apply Z.ltb_lt; lia).
    repeat split. f_equal. lia. }
  destruct (armed_run_rate n (t0 + period_us n) T fuel ltac:(lia) Hp
              nows 0 _ bs st' Ha0 HT Hrun)
    as (m & (_ & _ & Hnx) & Hcount & Hlast).
  exists (m + 1). split; [lia|]. split; [rewrite Hnx; f_equal; lia|].
  split; [lia|].
  destruct (Z_lt_le_dec 0 m) as [Hm|Hm].
  - specialize (Hlast Hm). nia.
  - assert (E : Z.of_nat (fires bs) = 0) by lia. rewrite E. lia.
Qed.

(** X9 on two jingles per hour and checks every ten minutes for two
    hours. *)
Lemma per_hour_rate_bound_witness :
  exists bs st' k,
    run_checks 2
      [600000000; 1200000000; 1800000000; 2400000000; 3000000000;
       3600000000; 4200000000; 4800000000; 5400000000; 6000000000;
       6600000000; 7200000000]
      (set_per_hour 0 2 init) = Ok (bs, st') /\
    next_jingle_time st' = Some (0 + k * period_us 2) /\
    Z.of_nat (fires bs) * period_us 2 <= Z.max 0 (7200000000 - 0).
Proof.
  assert (Hrun :
            run_checks 2
              [600000000; 1200000000; 1800000000; 2400000000; 3000000000;
               3600000000; 4200000000; 4800000000; 5400000000; 6000000000;
               6600000000; 7200000000]
              (set_per_hour 0 2 init)
            = Ok ([false; false; true; false; false; true;
                   false; false; true; false; false; true],
                  mkSched (Some PerHour) [] 2 (Some 9000000000)
                          (Some 7200000000)))
    by reflexivity.
  assert (Hn : 0 < 2 < 7200000000) by lia.
  assert (HT : Forall (fun t => t <= 7200000000)
                 [600000000; 1200000000; 1800000000; 2400000000;
                  3000000000; 3600000000; 4200000000; 4800000000;
                  5400000000; 6000000000; 6600000000; 7200000000])
    by (repeat constructor; discriminate).
  destruct (per_hour_rate_bound 2 0 7200000000 init 2 _ _ _ Hn HT Hrun)
    as (k & _ & Hnx & _ & Hrate).
  exists [false; false; true; false; false; true;
          false; false; true; false; false; true].
  exists (mkSched (Some PerHour) [] 2 (Some 9000000000) (Some 7200000000)).
  exists k. split; [exact Hrun|]. split; [exact Hnx|exact Hrate].
Defined.

(** ** Saving and restoring the session *)







(** A cached time that does not parse is listed on screen and not
    queued. *)
Example load_cache_bad_time :
  let r := load_cache 0
             (Some (mkCache None None (Some 0) (Some ["10:00"; "25:00"])))
             new_app in
  times (scheduler (fst r)) = ["10:00"] /\ snd r = ["10:00"; "25:00"].
Proof. split; reflexivity. Qed.

(** ** Next and Stop while the monitor waits for a jingle *)

(** Two applications with the same fields are the same. *)
Lemma app_ext (a b : App) :
  playlist a = playlist b -> jingles a = jingles b ->
  play_index a = play_index b -> scheduler a = scheduler b ->
  playing_jingle a = playing_jingle b -> jplayer a = jplayer b ->
  calls a = calls b -> a = b.
Proof.
  destruct a, b. simpl. intros. subst. reflexivity.
Qed.

(** Equality of two results of the monitor, field by field. *)
Ltac app_fields :=
  f_equal; apply app_ext;
  cbn [playlist jingles play_index scheduler playing_jingle jplayer calls
       with_calls with_index with_jingle with_scheduler with_playlist].

Lemma advance_and_play_eq (a : App) :
  playlist a <> [] ->
  _play_current_song (_advance_index a)
  = Ok (with_calls
          [MainSetMedia
             (song_at (playlist a)
                      ((play_index a + 1) mod len (playlist a)));
           MainPlay]
          (with_index ((play_index a + 1) mod len (playlist a)) a)).
Proof.
  intros Hne. rewrite (_advance_index_step a Hne).
  rewrite _play_current_song_in_range
    by (simpl; apply Z.mod_pos_bound, len_pos; exact Hne).
  reflexivity.
Qed.

Lemma jingle_wait_polls (ss : list VlcState) (evs : list Event) (a : App) :
  Forall (fun s => terminal s = false) ss ->
  playing_jingle a = true ->
  jingle_wait (map Poll ss ++ evs) a = jingle_wait evs a.
Proof.
  intros Hss Hp. induction Hss as [|s ss Hs _ IH]; [reflexivity|].
  simpl. rewrite Hp, Hs. simpl. exact IH.
Qed.

Lemma jingle_wait_not_playing (evs : list Event) (a : App) :
  playing_jingle a = false -> jingle_wait evs a = Ok a.
Proof. intros H. destruct evs; simpl; rewrite H; reflexivity. Qed.

(** X12: Next pressed while the monitor waits for a jingle to end.  A
    song has ended, the check says a jingle is due and one is chosen; the
    jingle player is polled some times without having finished, then Next
    is pressed.  The handler stops the jingle and plays the next song;
    the monitor, back from its wait, advances once more and plays the
    song after that: the cursor ends two rows on, and whatever happens
    later is not looked at. *)
Theorem next_during_jingle_advances_twice
  (a : App) (fuel : nat) (now : Z) (pick : nat) (st' : SchedulerState)
  (ss : list VlcState) (evs : list Event) :
  should_play_jingle_after_song fuel now (scheduler a) = Ok (true, st') ->
  jingles a <> [] ->
  random_choice pick (jingles a) <> "" ->
  playlist a <> [] ->
  Forall (fun s => terminal s = false) ss ->
  let L := len (playlist a) in
  let j := random_choice pick (jingles a) in
  monitor_iteration Ended fuel now pick (map Poll ss ++ PressNext :: evs) a
  = Ok (mkApp (playlist a) (jingles a) ((play_index a + 2) mod L) st'
              false None
              (calls a
               ++ [JingleSetMedia j; JinglePlay; JingleStop;
                   MainSetMedia
                     (song_at (playlist a) ((play_index a + 1) mod L));
                   MainPlay;
                   MainSetMedia
                     (song_at (playlist a) ((play_index a + 2) mod L));
                   MainPlay])).
Proof.
  intros Hdue Hj Hpath Hpl Hss L j.
  unfold monitor_iteration. rewrite Hdue. cbn [bind fst snd].
  replace (jingles (with_scheduler st' a)) with (jingles a) by reflexivity.
  rewrite (py_empty_false _ Hj). cbn [negb andb].
  unfold _play_jingle_once. fold j.
  replace (String.eqb j "") with false
    by (symmetry; apply String.eqb_neq; exact Hpath).
  rewrite jingle_wait_polls by (try exact Hss; reflexivity).
  cbn [jingle_wait]. cbn [playing_jingle with_calls with_jingle negb].
  unfold play_next, stop_active_jingle.
  cbn [jplayer playing_jingle with_calls with_jingle].
  rewrite advance_and_play_eq by exact Hpl.
  cbn [bind]. rewrite jingle_wait_not_playing by reflexivity.
  cbn [bind]. rewrite advance_and_play_eq by exact Hpl.
  assert (E : ((play_index a + 1) mod L + 1) mod L
              = (play_index a + 2) mod L).
  { rewrite Z.add_mod_idemp_l by (pose proof (len_pos _ Hpl); unfold L; lia).
    f_equal. lia. }
  app_fields; fold L; rewrite ?E, <- ?app_assoc; reflexivity.
Qed.

(** X12 on three songs, the cursor on the first, "00:00" due at 00:05. *)
Lemma next_during_jingle_advances_twice_witness :
  monitor_iteration Ended 0 300000000 0
    (map Poll [Opening; Playing] ++ PressNext :: [Poll Ended])
    (mkApp ["a.mp3"; "b.mp3"; "c.mp3"] ["j.mp3"] 0
           (snd (add_time "00:00" init)) false None [])
  = Ok (mkApp ["a.mp3"; "b.mp3"; "c.mp3"] ["j.mp3"] ((0 + 2) mod 3) init
              false None
              ([] ++ [JingleSetMedia "j.mp3"; JinglePlay; JingleStop;
                      MainSetMedia "b.mp3"; MainPlay;
                      MainSetMedia "c.mp3"; MainPlay])).
Proof.
  apply (next_during_jingle_advances_twice
           (mkApp ["a.mp3"; "b.mp3"; "c.mp3"] ["j.mp3"] 0
                  (snd (add_time "00:00" init)) false None [])
           0 300000000 0 init [Opening; Playing] [Poll Ended]).
  - reflexivity.
  - discriminate.
  - discriminate.
  - discriminate.
  - repeat constructor.
Defined.

(** X13: Stop pressed while the monitor waits for a jingle to end.  The
    handler stops the jingle player and the main player; the monitor, back
    from its wait, advances the cursor and loads and plays the next song
    all the same: the last calls on the main player are a load and a play,
    after the stop. *)
Theorem stop_during_jingle_resumes
  (a : App) (fuel : nat) (now : Z) (pick : nat) (st' : SchedulerState)
  (ss : list VlcState) (evs : list Event) :
  should_play_jingle_after_song fuel now (scheduler a) = Ok (true, st') ->
  jingles a <> [] ->
  random_choice pick (jingles a) <> "" ->
  playlist a <> [] ->
  Forall (fun s => terminal s = false) ss ->
  let L := len (playlist a) in
  let j := random_choice pick (jingles a) in
  monitor_iteration Ended fuel now pick (map Poll ss ++ PressStop :: evs) a
  = Ok (mkApp (playlist a) (jingles a) ((play_index a + 1) mod L) st'
              false None
              (calls a
               ++ [JingleSetMedia j; JinglePlay; JingleStop; MainStop;
                   MainSetMedia
                     (song_at (playlist a) ((play_index a + 1) mod L));
                   MainPlay])).
Proof.
  intros Hdue Hj Hpath Hpl Hss L j.
  unfold monitor_iteration. rewrite Hdue. cbn [bind fst snd].
  replace (jingles (with_scheduler st' a)) with (jingles a) by reflexivity.
  rewrite (py_empty_false _ Hj). cbn [negb andb].
  unfold _play_jingle_once. fold j.
  replace (String.eqb j "") with false
    by (symmetry; apply String.eqb_neq; exact Hpath).
  rewrite jingle_wait_polls by (try exact Hss; reflexivity).
  cbn [jingle_wait]. cbn [playing_jingle with_calls with_jingle negb].
  unfold stop, stop_active_jingle.
  cbn [jplayer playing_jingle with_calls with_jingle].
  rewrite jingle_wait_not_playing by reflexivity.
  cbn [bind]. rewrite advance_and_play_eq by exact Hpl.
  app_fields; fold L; rewrite <- ?app_assoc; reflexivity.
Qed.

(** X13 on two songs, "00:00" due at 00:05. *)
Lemma stop_during_jingle_resumes_witness :
  monitor_iteration Ended 0 300000000 0
    (map Poll [Playing] ++ PressStop :: [])
    (mkApp ["a.mp3"; "b.mp3"] ["j.mp3"] 0
           (snd (add_time "00:00" init)) false None [])
  = Ok (mkApp ["a.mp3"; "b.mp3"] ["j.mp3"] ((0 + 1) mod 2) init
              false None
              ([] ++ [JingleSetMedia "j.mp3"; JinglePlay; JingleStop;
                      MainStop; MainSetMedia "b.mp3"; MainPlay])).
Proof.
  apply (stop_during_jingle_resumes
           (mkApp ["a.mp3"; "b.mp3"] ["j.mp3"] 0
                  (snd (add_time "00:00" init)) false None [])
           0 300000000 0 init [Playing] []).
  - reflexivity.
  - discriminate.
  - discriminate.
  - discriminate.
  - repeat constructor.
Defined.

(** ** A due jingle and an empty pool *)

(** X14: when a song ends and there is no jingle in the pool, the check
    is made all the same and its effect on the scheduler stays (a due
    clock time is consumed, the per-hour timer is re-armed), but no call
    goes to a jingle player: the monitor only advances the cursor by one
    and plays the song there, whatever events follow. *)
Theorem empty_pool_consumes_due
  (a : App) (fuel : nat) (now : Z) (pick : nat) (evs : list Event)
  (b : bool) (st' : SchedulerState) :
  jingles a = [] ->
  playlist a <> [] ->
  should_play_jingle_after_song fuel now (scheduler a) = Ok (b, st') ->
  let L := len (playlist a) in
  monitor_iteration Ended fuel now pick evs a
  = Ok (mkApp (playlist a) [] ((play_index a + 1) mod L) st'
              (playing_jingle a) (jplayer a)
              (calls a
               ++ [MainSetMedia
                     (song_at (playlist a) ((play_index a + 1) mod L));
                   MainPlay])).
Proof.
  intros Hj Hpl Hcall L.
  unfold monitor_iteration. rewrite Hcall. cbn [bind fst snd].
  replace (jingles (with_scheduler st' a)) with (jingles a) by reflexivity.
  rewrite Hj. cbn [py_empty negb]. rewrite andb_false_r. cbn [bind].
  rewrite advance_and_play_eq by exact Hpl.
  app_fields; rewrite ?Hj; reflexivity.
Qed.

(** X14 on "00:00" due at 00:05 and no jingle: the entry is gone. *)
Lemma empty_pool_consumes_due_witness :
  monitor_iteration Ended 0 300000000 0 []
    (mkApp ["a.mp3"; "b.mp3"] [] 0 (snd (add_time "00:00" init))
           false None [])
  = Ok (mkApp ["a.mp3"; "b.mp3"] [] ((0 + 1) mod 2) init false None
              ([] ++ [MainSetMedia "b.mp3"; MainPlay])).
Proof.
  apply (empty_pool_consumes_due
           (mkApp ["a.mp3"; "b.mp3"] [] 0 (snd (add_time "00:00" init))
                  false None [])
           0 300000000 0 [] true init).
  - reflexivity.
  - discriminate.
  - reflexivity.
Defined.

(** ** A jingle between two songs *)

(** X15: a jingle is played to its end before the next song starts.  A
    song has ended, a jingle is due and one is chosen.  As long as the
    jingle player has only reported states other than Ended, Stopped and
    Error, the iteration has not returned and nothing was asked of the
    main player; at the first such state the jingle player is dropped,
    the cursor advances by one and the song there is loaded and played.
    Events after that state are not looked at. *)
Theorem jingle_plays_to_its_end
  (a : App) (fuel : nat) (now : Z) (pick : nat) (st' : SchedulerState)
  (ss : list VlcState) (t : VlcState) (evs : list Event) :
  should_play_jingle_after_song fuel now (scheduler a) = Ok (true, st') ->
  jingles a <> [] ->
  random_choice pick (jingles a) <> "" ->
  playlist a <> [] ->
  Forall (fun s => terminal s = false) ss ->
  terminal t = true ->
  let L := len (playlist a) in
  let j := random_choice pick (jingles a) in
  monitor_iteration Ended fuel now pick (map Poll ss) a = Timeout /\
  monitor_iteration Ended fuel now pick (map Poll ss ++ Poll t :: evs) a
  = Ok (mkApp (playlist a) (jingles a) ((play_index a + 1) mod L) st'
              false None
              (calls a
               ++ [JingleSetMedia j; JinglePlay;
                   MainSetMedia
                     (song_at (playlist a) ((play_index a + 1) mod L));
                   MainPlay])).
Proof.
  intros Hdue Hj Hpath Hpl Hss Ht L j.
  unfold monitor_iteration. rewrite Hdue. cbn [bind fst snd].
  replace (jingles (with_scheduler st' a)) with (jingles a) by reflexivity.
  rewrite (py_empty_false _ Hj). cbn [negb andb].
  unfold _play_jingle_once. fold j.
  replace (String.eqb j "") with false
    by (symmetry; apply String.eqb_neq; exact Hpath).
  split.
  - rewrite <- (app_nil_r (map Poll ss)).
    rewrite jingle_wait_polls by (try exact Hss; reflexivity).
    reflexivity.
  - rewrite jingle_wait_polls by (try exact Hss; reflexivity).
    cbn [jingle_wait]. cbn [playing_jingle with_calls with_jingle negb].
    rewrite Ht. cbn [bind].
    rewrite advance_and_play_eq by exact Hpl.
    app_fields; fold L; rewrite <- ?app_assoc; reflexivity.
Qed.

(** X15 on two songs, "00:00" due at 00:05, a jingle that ends at the
    third poll. *)
Lemma jingle_plays_to_its_end_witness :
  monitor_iteration Ended 0 300000000 0 (map Poll [Opening; Playing])
    (mkApp ["a.mp3"; "b.mp3"] ["j.mp3"] 0
           (snd (add_time "00:00" init)) false None [])
  = Timeout /\
  monitor_iteration Ended 0 300000000 0
    (map Poll [Opening; Playing] ++ Poll Ended :: [])
    (mkApp ["a.mp3"; "b.mp3"] ["j.mp3"] 0
           (snd (add_time "00:00" init)) false None [])
  = Ok (mkApp ["a.mp3"; "b.mp3"] ["j.mp3"] ((0 + 1) mod 2) init
              false None
              ([] ++ [JingleSetMedia "j.mp3"; JinglePlay;
                      MainSetMedia "b.mp3"; MainPlay])).
Proof.
  apply (jingle_plays_to_its_end
           (mkApp ["a.mp3"; "b.mp3"] ["j.mp3"] 0
                  (snd (add_time "00:00" init)) false None [])
           0 300000000 0 init [Opening; Playing] Ended []).
  - reflexivity.
  - discriminate.
  - discriminate.
  - discriminate.
  - repeat constructor.
  - reflexivity.
Defined.

(** ** No jingle is left in progress *)

Lemma advance_and_play_jingle_fields (a a' : App) :
  _play_current_song (_advance_index a) = Ok a' ->
  playing_jingle a' = playing_jingle a /\ jplayer a' = jplayer a.
Proof.
  intros H.
  destruct (_advance_index_ok a) as (Hc & _ & _ & _ & Hp & Hj & _).
  destruct (_play_current_song_ok _ Hc)
    as (a'' & Hplay & _ & _ & _ & Hp2 & Hj2 & _).
  rewrite Hplay in H. injection H as <-. split; congruence.
Qed.

(** X16: with no jingle in progress (playing_jingle unset, no jingle
    player), none is in progress after play_pause, stop, play_next, the
    playlist handlers, or a whole iteration of the monitor loop, whatever
    the player reports and whichever buttons are pressed meanwhile: a
    jingle player only exists inside the monitor's wait. *)
Theorem jingle_idle_kept (a : App) :
  jingle_idle a ->
  jingle_idle (stop a) /\
  (forall a', play_next a = Ok a' -> jingle_idle a') /\
  (forall is_playing state a',
      play_pause is_playing state a = Ok a' -> jingle_idle a') /\
  (forall rows a',
      remove_selected_songs rows a = Ok a' \/ move_up rows a = Ok a' \/
      move_down rows a = Ok a' ->
      jingle_idle a') /\
  (forall state fuel now pick evs a',
      monitor_iteration state fuel now pick evs a = Ok a' ->
      jingle_idle a').
Proof.
  intros [Hp Hj]. unfold jingle_idle.
  assert (Hstop : stop_active_jingle a = a)
    by (unfold stop_active_jingle; rewrite Hj; reflexivity).
  split; [|split; [|split; [|split]]].
  - unfold stop. rewrite Hstop. simpl. split; assumption.
  - intros a' H. unfold play_next in H. rewrite Hstop in H.
    destruct (advance_and_play_jingle_fields a a' H) as [-> ->].
    split; assumption.
  - intros is_playing state a' H. unfold play_pause in H.
    destruct is_playing; [injection H as <-; split; assumption|].
    destruct (py_empty (playlist a)) eqn:Ee;
      [injection H as <-; split; assumption|].
    assert (Hfresh :
              _play_current_song
                (with_index
                   (Z.max 0 (Z.min (play_index a) (len (playlist a) - 1)))
                   a) = Ok a' ->
              playing_jingle a' = false /\ jplayer a' = None).
    { intros H'. unfold _play_current_song in H'. simpl in H'.
      rewrite Ee in H'.
      destruct (py_getitem (playlist a) _) as [path| |];
        try discriminate.
      simpl in H'. injection H' as <-. split; assumption. }
    destruct state; try exact (Hfresh H);
      injection H as <-; split; assumption.
  - intros rows a' [H|[H|H]].
    + unfold remove_selected_songs in H.
      destruct (py_empty rows); [injection H as <-; split; assumption|].
      destruct (delete_rows _ _) as [l| |]; try discriminate.
      injection H as <-. split; assumption.
    + unfold move_up in H.
      destruct (py_empty rows); [injection H as <-; split; assumption|].
      cbv zeta in H.
      destruct (hd 0 (sorted rows) =? 0);
        [injection H as <-; split; assumption|].
      destruct (swap_rows _ _ _) as [l| |]; try discriminate.
      injection H as <-. split; assumption.
    + unfold move_down in H.
      destruct (py_empty rows); [injection H as <-; split; assumption|].
      cbv zeta in H.
      destruct (hd 0 (sorted_reverse rows) =? len (playlist a) - 1);
        [injection H as <-; split; assumption|].
      destruct (swap_rows _ _ _) as [l| |]; try discriminate.
      injection H as <-. split; assumption.
  - intros state fuel now pick evs a' H.
    destruct (VlcState_eq_dec state Ended) as [->|Hne].
    2:{ assert (E : monitor_iteration state fuel now pick evs a = Ok a)
          by (destruct state; try reflexivity; contradiction).
        rewrite E in H. injection H as <-. split; assumption. }
    unfold monitor_iteration in H.
    destruct (should_play_jingle_after_song fuel now (scheduler a))
      as [[b st']| |]; try discriminate. cbn [bind fst snd] in H.
    destruct (b && negb (py_empty (jingles (with_scheduler st' a)))).
    + unfold _play_jingle_once in H.
      destruct (String.eqb _ "").
      * cbn [bind] in H.
        destruct (advance_and_play_jingle_fields _ a' H) as [-> ->].
        split; assumption.
      * destruct (jingle_wait _ _) as [a2| |]; try discriminate.
        cbn [bind] in H.
        destruct (advance_and_play_jingle_fields _ a' H) as [-> ->].
        split; reflexivity.
    + cbn [bind] in H.
      destruct (advance_and_play_jingle_fields _ a' H) as [-> ->].
      split; assumption.
Qed.

(** X16 on a window with two songs, a jingle and "00:00" due at 00:05:
    after Stop, and after the monitor iteration that plays the jingle. *)
Lemma jingle_idle_kept_witness :
  let a := mkApp ["a.mp3"; "b.mp3"] ["j.mp3"] 0
                 (snd (add_time "00:00" init)) false None [] in
  jingle_idle (stop a) /\
  exists a',
    monitor_iteration Ended 0 300000000 0 [Poll Playing; Poll Ended] a
    = Ok a' /\
    calls a' = [JingleSetMedia "j.mp3"; JinglePlay;
                MainSetMedia "b.mp3"; MainPlay] /\
    jingle_idle a'.
Proof.
  cbv zeta.
  destruct (jingle_idle_kept
              (mkApp ["a.mp3"; "b.mp3"] ["j.mp3"] 0
                     (snd (add_time "00:00" init)) false None [])
              (conj eq_refl eq_refl))
    as (Hs & _ & _ & _ & Hm).
  split; [exact Hs|].
  eexists. split; [reflexivity|]. split; [reflexivity|].
  exact (Hm Ended 0%nat 300000000 0%nat [Poll Playing; Poll Ended] _
            eq_refl).
Defined.

(** ** Checks that change nothing *)

(** X17: a check that returns False has changed nothing in the
    scheduler; a check that returns True has changed either the list of
    times (one entry less, timers as before) or the per-hour timers
    (times and mode as before), never both, and never per_hour. *)
Theorem check_effect (fuel : nat) (now : Z) (st : SchedulerState)
  (b : bool) (st' : SchedulerState) :
  should_play_jingle_after_song fuel now st = Ok (b, st') ->
  per_hour st' = per_hour st /\
  (b = false -> st' = st) /\
  (b = true ->
   (S (List.length (times st')) = List.length (times st) /\
    next_jingle_time st' = next_jingle_time st /\
    last_jingle_time st' = last_jingle_time st) \/
   (times st' = times st /\ mode st' = mode st /\
    next_jingle_time st' <> next_jingle_time st)).
Proof.
  unfold should_play_jingle_after_song.
  destruct (fixed_due now st) as [[U|]| |] eqn:Efd; simpl; try discriminate.
  - intros H. injection H as <- <-. simpl.
    split; [reflexivity|]. split; [discriminate|]. intros _. left.
    assert (Hin : In U (times st)).
    { unfold fixed_due in Efd.
      destruct (mode_eqb (mode st) (Some Times)
                && negb (py_empty (times st))); [|discriminate].
      exact (first_due_In now _ U Efd). }
    split; [exact (py_remove_length U (times st) Hin)|]. split; reflexivity.
  - destruct (mode_eqb (mode st) (Some PerHour) && (0 <? per_hour st))
      eqn:Eph.
    2:{ intros H. injection H as <- <-. split; [reflexivity|].
        split; [reflexivity|discriminate]. }
    destruct (next_jingle_time st) as [next|] eqn:En.
    2:{ intros H. injection H as <- <-. split; [reflexivity|].
        split; [reflexivity|discriminate]. }
    destruct (next <=? now) eqn:Ed.
    2:{ intros H. injection H as <- <-. split; [reflexivity|].
        split; [reflexivity|discriminate]. }
    destruct (advance_loop fuel now (period_us (per_hour st)) next
                (last_jingle_time st)) as [[next' last']|] eqn:El;
      [|discriminate].
    intros H. injection H as <- <-. simpl.
    split; [reflexivity|]. split; [discriminate|]. intros _. right.
    split; [reflexivity|]. split; [reflexivity|].
    intros E. injection E as ->.
    apply Z.leb_le in Ed.
    (* the loop has stopped, so its result is after now *)
    destruct fuel as [|fuel]; simpl in El.
    + replace (next <=? now) with true in El
        by (symmetry; apply Z.leb_le; exact Ed). discriminate.
    + assert (Hstop : forall f nx la nx' la',
                 advance_loop f now (period_us (per_hour st)) nx la
                 = Some (nx', la') -> now < nx').
      { induction f as [|f IH]; intros nx la nx' la' Hl; simpl in Hl;
          destruct (nx <=? now) eqn:Ec; try discriminate.
        - injection Hl as <- _. apply Z.leb_gt. exact Ec.
        - exact (IH _ _ _ _ Hl).
        - injection Hl as <- _. apply Z.leb_gt. exact Ec. }
      replace (next <=? now) with true in El
        by (symmetry; apply Z.leb_le; exact Ed).
      apply Hstop in El. lia.
Qed.

(** X17 on the check of a scheduler with "10:00" queued, at 10:30: the
    entry goes and the timers stay. *)
Lemma check_effect_witness :
  S (List.length (times init))
  = List.length (times (snd (add_time "10:00" init))) /\
  next_jingle_time init = next_jingle_time (snd (add_time "10:00" init)).
Proof.
  destruct (check_effect 0 37800000000 (snd (add_time "10:00" init))
              true init eq_refl)
    as (_ & _ & Ht).
  destruct (Ht eq_refl) as [(Hl & Hn & _)|(_ & _ & Hn)].
  - split; [exact Hl|exact Hn].
  - exfalso. apply Hn. reflexivity.
Defined.

(** X18: set_per_hour(n) with n <= 0 switches the whole scheduler off,
    queued clock times included: the mode is None, and every later check
    returns False and changes nothing, until add_time or set_per_hour is
    called again; the queued times stay in the list. *)
Theorem set_per_hour_zero_silences (t n : Z) (st : SchedulerState)
  (fuel : nat) (nows : list Z) :
  n <= 0 ->
  let st0 := set_per_hour t n st in
  mode st0 = None /\
  times st0 = times st /\
  next_jingle_time st0 = None /\
  run_checks fuel nows st0 = Ok (repeat false (List.length nows), st0).
Proof.
  intros Hn. cbv zeta.
  assert (E : (0 <? n) = false) by (apply Z.ltb_ge; exact Hn).
  assert (Hq : forall now,
             should_play_jingle_after_song fuel now (set_per_hour t n st)
             = Ok (false, set_per_hour t n st)).
  { intros now. unfold should_play_jingle_after_song, fixed_due, set_per_hour.
    simpl. rewrite E. reflexivity. }
  unfold set_per_hour at 1 2 3. simpl. rewrite E.
  repeat split.
  induction nows as [|now nows IH].
  - reflexivity.
  - cbn [run_checks]. rewrite Hq. cbn [bind fst snd]. rewrite IH.
    reflexivity.
Qed.

(** X18 on a queued "00:00" and checks at 00:05 and a day later. *)
Lemma set_per_hour_zero_silences_witness :
  let st0 := set_per_hour 0 0 (snd (add_time "00:00" init)) in
  times st0 = ["00:00"] /\
  run_checks 0 [300000000; 86700000000] st0 = Ok ([false; false], st0).
Proof.
  cbv zeta.
  destruct (set_per_hour_zero_silences 0 0 (snd (add_time "00:00" init))
              0 [300000000; 86700000000] ltac:(lia))
    as (_ & Ht & _ & Hrun).
  split; [exact Ht|exact Hrun].
Defined.

(** ** add_songs followed by remove_selected_songs *)

Lemma without_rows_all (rows : list Z) (l : list string) :
  forall off,
    (forall i, off <= i < off + len l -> In i rows) ->
    without_rows rows off l = [].
Proof.
  induction l as [|x l IH]; intros off H; simpl; [reflexivity|].
  pose proof (len_nonneg l) as Hl.
  replace (existsb (Z.eqb off) rows) with true
    by (symmetry; apply existsb_In, H; rewrite len_cons; lia).
  apply IH. intros i Hi. apply H. rewrite len_cons. lia.
Qed.

Lemma new_rows_In (a : App) (files : list string) (i : Z) :
  In i (new_rows a files)
  <-> len (playlist a) <= i < len (playlist a) + len files.
Proof.
  unfold new_rows, len. rewrite in_map_iff. split.
  - intros (k & <- & Hk). apply in_seq in Hk. lia.
  - intros H. exists (Z.to_nat i). split; [lia|]. apply in_seq. lia.
Qed.

Lemma new_rows_NoDup (a : App) (files : list string) :
  NoDup (new_rows a files).
Proof.
  unfold new_rows.
  pose proof (seq_NoDup (List.length files) (List.length (playlist a)))
    as Hs.
  induction Hs as [|k l Hk _ IH]; simpl; constructor; [|exact IH].
  intros Hin. apply in_map_iff in Hin. destruct Hin as (k' & E & Hin).
  apply Nat2Z.inj in E. subst k'. exact (Hk Hin).
Qed.

(** X19: songs added with add_songs take the rows after the old ones;
    selecting exactly those rows and removing them gives back the
    application as it was, cursor included. *)
Theorem add_then_remove_songs (files : list string) (a : App) :
  playlist (add_songs files a) = playlist a ++ files /\
  (forall k, 0 <= k < len (playlist a) ->
             song_at (playlist (add_songs files a)) k
             = song_at (playlist a) k) /\
  remove_selected_songs (new_rows a files) (add_songs files a) = Ok a.
Proof.
  split; [reflexivity|]. split.
  { intros k Hk. simpl. apply song_at_app_l. exact Hk. }
  unfold remove_selected_songs.
  destruct (py_empty (new_rows a files)) eqn:Ee.
  - assert (Hf : files = []).
    { unfold new_rows in Ee. destruct files; [reflexivity|discriminate]. }
    subst files. unfold add_songs. rewrite app_nil_r.
    destruct a; reflexivity.
  - rewrite delete_rows_descending.
    + cbn [bind]. f_equal.
      rewrite (without_rows_same _ (new_rows a files))
        by (intros i _; apply sorted_reverse_In).
      simpl. rewrite without_rows_app.
      rewrite (without_rows_same (new_rows a files) [] (playlist a))
        by (intros i Hi; rewrite new_rows_In; simpl; split;
            [lia|intros []]).
      rewrite without_rows_none by (intros r []).
      rewrite without_rows_all
        by (intros i Hi; apply new_rows_In; lia).
      rewrite app_nil_r. destruct a; reflexivity.
    + apply sorted_reverse_gt, new_rows_NoDup.
    + intros r Hr. apply (proj1 (sorted_reverse_In _ _)) in Hr.
      apply new_rows_In in Hr. simpl. rewrite len_app.
      pose proof (len_nonneg (playlist a)). lia.
Qed.

(** ** The status line *)



(** ** The two per-hour timers *)



(** ** The cursor goes round the playlist *)

Lemma iter_advance (a : App) (k : nat) :
  playlist a <> [] ->
  0 <= play_index a < len (playlist a) ->
  playlist (Nat.iter k _advance_index a) = playlist a /\
  play_index (Nat.iter k _advance_index a)
  = (play_index a + Z.of_nat k) mod len (playlist a).
Proof.
  intros Hne Hr. induction k as [|k [IHp IHi]].
  - simpl. split; [reflexivity|].
    rewrite Z.add_0_r, Z.mod_small by exact Hr. reflexivity.
  - change (Nat.iter (S k) _advance_index a)
      with (_advance_index (Nat.iter k _advance_index a)).
    rewrite _advance_index_step by (rewrite IHp; exact Hne).
    simpl. split; [exact IHp|]. rewrite IHp, IHi.
    rewrite Z.add_mod_idemp_l by (pose proof (len_pos _ Hne); lia).
    f_equal. lia.
Qed.

(** X22: with a non-empty playlist and the cursor inside it, k advances
    put the cursor on row (play_index + k) mod len(playlist); as many
    advances as there are songs bring it back to where it was, and every
    row is reached within that many advances: the playlist is played
    round and round, no song skipped. *)
Theorem advance_goes_round (a : App) :
  playlist a <> [] ->
  0 <= play_index a < len (playlist a) ->
  (forall k : nat,
      play_index (Nat.iter k _advance_index a)
      = (play_index a + Z.of_nat k) mod len (playlist a)) /\
  play_index (Nat.iter (List.length (playlist a)) _advance_index a)
  = play_index a /\
  (forall r, 0 <= r < len (playlist a) ->
             exists k : nat,
               (k < List.length (playlist a))%nat /\
               play_index (Nat.iter k _advance_index a) = r).
Proof.
  intros Hne Hr. pose proof (len_pos _ Hne) as HL.
  split; [|split].
  - intros k. exact (proj2 (iter_advance a k Hne Hr)).
  - rewrite (proj2 (iter_advance a _ Hne Hr)).
    fold (len (playlist a)).
    rewrite <- (Z.mul_1_l (len (playlist a))) at 1.
    rewrite Z.mod_add by lia. apply Z.mod_small. exact Hr.
  - intros r Hrr.
    exists (Z.to_nat ((r - play_index a) mod len (playlist a))).
    pose proof (Z.mod_pos_bound (r - play_index a) (len (playlist a)) HL)
      as Hb.
    split; [unfold len in *; lia|].
    rewrite (proj2 (iter_advance a _ Hne Hr)).
    rewrite Z2Nat.id by lia.
    rewrite Z.add_mod_idemp_r by lia.
    replace (play_index a + (r - play_index a)) with r by lia.
    apply Z.mod_small. exact Hrr.
Qed.

(** X22 on three songs with the cursor on the second. *)
Lemma advance_goes_round_witness :
  play_index
    (Nat.iter 3 _advance_index
       (mkApp ["a.mp3"; "b.mp3"; "c.mp3"] [] 1 init false None []))
  = 1 /\
  exists k : nat,
    (k < 3)%nat /\
    play_index
      (Nat.iter k _advance_index
         (mkApp ["a.mp3"; "b.mp3"; "c.mp3"] [] 1 init false None []))
    = 0.
Proof.
  destruct (advance_goes_round
              (mkApp ["a.mp3"; "b.mp3"; "c.mp3"] [] 1 init false None []))
    as (_ & Hback & Hall).
  - discriminate.
  - unfold len. simpl. lia.
  - split; [exact Hback|]. apply (Hall 0). unfold len. simpl. lia.
Defined.
